(** * AICA mobile front end: word list screen and profile screen

    A shallow embedding of the view-state logic of [src/app/home.tsx]
    (the word list, [HomeScreen]) and of the profile screen
    ([MyPageScreen]), together with the properties of deduplication,
    meaning toggles, failed fetches and logout.

    Modelling conventions.
    - Identifiers ([wordId], [sentenceId], [id]) are JavaScript numbers that
      hold database keys; they are modelled as integers [Z], strict
      equality [===] on them as [Z.eqb], and their rendering inside a
      template literal as the decimal rendering [pretty] (what [String(n)]
      yields for an integer below 1e21 in magnitude).
    - Arrays are lists; [Array.prototype.filter], [findIndex], [map] and
      [join] are written once in [JsArray] with the callback arities the
      screens use.
    - A React component's [useState] cells form a record; an event handler
      is a program in a small state-and-exception monad over that record,
      the secure store and a log of the externally visible effects
      (console, alerts, navigation).
    - An awaited promise is given by its outcome ([Resolved] or
      [Rejected]). *)

From stdpp Require Import base tactics option list strings pretty gmap.
From Stdlib Require Import ZArith Lia Ascii.

Local Open Scope Z_scope.

(** ** JavaScript array methods *)

Module JsArray.

Section Methods.
Context {A : Type}.

(** [arr.findIndex(p)]: the index of the first element satisfying [p],
    or [-1] when there is none. [i] is the index of the head of [l]. *)
Fixpoint findIndex_from (p : A → bool) (l : list A) (i : Z) : Z :=
  match l with
  | [] => -1
  | x :: l' => if p x then i else findIndex_from p l' (i + 1)
  end.

Definition findIndex (p : A → bool) (self : list A) : Z :=
  findIndex_from p self 0.

(** [self.filter((x, index, self) => p x index self)], scanning the
    suffix [l] of [self] whose head has index [i]. *)
Fixpoint filter_from (p : A → Z → list A → bool) (self : list A)
    (i : Z) (l : list A) : list A :=
  match l with
  | [] => []
  | x :: l' =>
      if p x i self then x :: filter_from p self (i + 1) l'
      else filter_from p self (i + 1) l'
  end.

Definition filter (p : A → Z → list A → bool) (self : list A) : list A :=
  filter_from p self 0 self.

(** [arr.map((x, index) => f x index)]. *)
Fixpoint map_from {B : Type} (f : A → Z → B) (i : Z) (l : list A) : list B :=
  match l with
  | [] => []
  | x :: l' => f x i :: map_from f (i + 1) l'
  end.

Definition map_index {B : Type} (f : A → Z → B) (self : list A) : list B :=
  map_from f 0 self.
End Methods.

(** [arr.join(sep)] on an array of strings. *)
Fixpoint join (sep : string) (l : list string) : string :=
  match l with
  | [] => ""
  | [s] => s
  | s :: l' => s +:+ sep +:+ join sep l'
  end.

End JsArray.

(** ** Handlers as programs: state, exceptions and visible effects *)

Module Runtime.

(** What a handler does that is visible outside the view state. *)
Inductive Effect :=
  | ConsoleError (message reason : string)
  | AlertAlert (title message : string)
  | RouterReplace (href : string).

(** The outcome of an awaited promise. *)
Inductive Promise (A : Type) :=
  | Resolved (value : A)
  | Rejected (reason : string).
Global Arguments Resolved {A} value.
Global Arguments Rejected {A} reason.

(** The view state of the mounted screen, the device's secure store and
    the effects emitted so far (oldest first). *)
Record World (S : Type) := MkWorld {
  view : S;
  secureStore : gmap string string;
  effects : list Effect;
}.
Global Arguments MkWorld {S} view secureStore effects.
Global Arguments view {S} w.
Global Arguments secureStore {S} w.
Global Arguments effects {S} w.

(** A handler body: it ends normally with a value or throws. *)
Inductive Completion (A : Type) :=
  | Normal (value : A)
  | Throw (reason : string).
Global Arguments Normal {A} value.
Global Arguments Throw {A} reason.

Definition Prog (S A : Type) : Type := World S → Completion A * World S.

Section Prog.
Context {S : Type}.

Definition ret {A} (a : A) : Prog S A := λ w, (Normal a, w).

Definition bind {A B} (m : Prog S A) (k : A → Prog S B) : Prog S B :=
  λ w, match m w with
       | (Normal a, w') => k a w'
       | (Throw e, w') => (Throw e, w')
       end.

Definition getState : Prog S S := λ w, (Normal (view w), w).

(** A state setter called with an updater function, [setX(prev => f prev)];
    [setX(v)] is the constant updater. *)
Definition setState (f : S → S) : Prog S unit :=
  λ w, (Normal (), MkWorld (f (view w)) (secureStore w) (effects w)).

Definition emit (e : Effect) : Prog S unit :=
  λ w, (Normal (), MkWorld (view w) (secureStore w) (effects w ++ [e])).

(** [await p]: the value of a resolved promise, a throw for a rejected one. *)
Definition await {A} (p : Promise A) : Prog S A :=
  λ w, match p with
       | Resolved a => (Normal a, w)
       | Rejected e => (Throw e, w)
       end.

(** [try { body } catch (error) { handler error }] *)
Definition tryCatch {A} (body : Prog S A) (handler : string → Prog S A)
    : Prog S A :=
  λ w, match body w with
       | (Normal a, w') => (Normal a, w')
       | (Throw e, w') => handler e w'
       end.

(** [try { body } catch (error) { handler error } finally { finalizer }] *)
Definition tryCatchFinally {A} (body : Prog S A)
    (handler : string → Prog S A) (finalizer : Prog S unit) : Prog S A :=
  λ w, match tryCatch body handler w with
       | (c, w') =>
           match finalizer w' with
           | (Normal _, w'') => (c, w'')
           | (Throw e, w'') => (Throw e, w'')
           end
       end.

(** The world a handler leaves behind. *)
Definition exec {A} (m : Prog S A) (w : World S) : World S := (m w).2.
End Prog.

(** [SecureStore.deleteItemAsync(key)]: the call starts the deletion and
    hands back its promise; [outcome] is how that promise settles, and the
    entry is gone when it resolves. *)
Definition deleteItemAsync {S} (key : string) (outcome : Promise ())
    : Prog S (Promise ()) :=
  λ w, match outcome with
       | Resolved _ =>
           (Normal outcome,
            MkWorld (view w) (delete key (secureStore w)) (effects w))
       | Rejected _ => (Normal outcome, w)
       end.

(** [Promise.all([p1, p2])]: both values, or the reason of the promise that
    rejected first; [secondSettlesFirst] says which of the two settled first. *)
Definition Promise_all2 {A B} (secondSettlesFirst : bool)
    (p1 : Promise A) (p2 : Promise B) : Promise (A * B) :=
  match p1, p2 with
  | Resolved a, Resolved b => Resolved (a, b)
  | Rejected e, Resolved _ => Rejected e
  | Resolved _, Rejected e => Rejected e
  | Rejected e1, Rejected e2 => Rejected (if secondSettlesFirst then e2 else e1)
  end.

End Runtime.

Notation "x <- m ;; k" := (Runtime.bind m (λ x, k))
  (at level 100, m at next level, right associativity, only parsing).
Notation "m ;;; k" := (Runtime.bind m (λ _, k))
  (at level 100, right associativity, only parsing).

(** ** The word list screen, [src/app/home.tsx] *)

Module Home.

Record Meaning := { meaning : string }.

Record WordData := {
  wordId : Z;
  sentenceId : Z;
  word : string;
  meanings : list Meaning;
}.

(** [interface ProcessedWord extends WordData]. *)
Record ProcessedWord := {
  base :> WordData;
  formattedMeanings : string;
  isMeaningVisible : bool;
}.

(** The callback of the deduplicating filter,
    [(word, index, self) => index === self.findIndex(w => w.wordId === word.wordId)]. *)
Definition isFirstOccurrence (word : WordData) (index : Z)
    (self : list WordData) : bool :=
  index =? JsArray.findIndex (λ w, wordId w =? wordId word) self.

Definition uniqueWords (allWords : list WordData) : list WordData :=
  JsArray.filter isFirstOccurrence allWords.

(** [word.meanings.map((m, index) => `${index + 1}. ${m.meaning}`).join(' ')] *)
Definition formatMeanings (ms : list Meaning) : string :=
  JsArray.join " "
    (JsArray.map_index (λ m index, pretty (index + 1) +:+ ". " +:+ meaning m) ms).

Definition processWord (w : WordData) : ProcessedWord :=
  {| base := w;
     formattedMeanings := formatMeanings (meanings w);
     isMeaningVisible := false |}.

Definition processedData (allWords : list WordData) : list ProcessedWord :=
  processWord <$> uniqueWords allWords.

(** The deduplication as the specification words it: an entry is kept if
    and only if no earlier entry of the list has the same [wordId]; the
    earlier entries of position [i] are [take i l]. *)
Definition noEarlierSameId (l : list WordData) (i : nat) (w : WordData) : bool :=
  forallb (λ w', negb (wordId w' =? wordId w)) (take i l).

Definition keepFirstOccurrences (l : list WordData) : list WordData :=
  omap (λ iw : nat * WordData,
          if noEarlierSameId l iw.1 iw.2 then Some iw.2 else None)
       (imap pair l).

(** The key of a row: [`${item.wordId}-${item.sentenceId}`]. *)
Definition keyExtractor (item : WordData) : string :=
  pretty (wordId item) +:+ "-" +:+ pretty (sentenceId item).

(** The three [useState] cells of [HomeScreen]. *)
Record State := {
  words : list ProcessedWord;
  isLoading : bool;
  showAllMeanings : bool;
}.

Definition initialState : State :=
  {| words := []; isLoading := true; showAllMeanings := false |}.

Definition setWords (f : list ProcessedWord → list ProcessedWord)
    : Runtime.Prog State unit :=
  Runtime.setState (λ s,
    {| words := f (words s); isLoading := isLoading s;
       showAllMeanings := showAllMeanings s |}).

Definition setIsLoading (b : bool) : Runtime.Prog State unit :=
  Runtime.setState (λ s,
    {| words := words s; isLoading := b;
       showAllMeanings := showAllMeanings s |}).

Definition setShowAllMeanings (b : bool) : Runtime.Prog State unit :=
  Runtime.setState (λ s,
    {| words := words s; isLoading := isLoading s; showAllMeanings := b |}).

(** [fetchWords], given the outcome of [api.get('/api/word')] (already
    projected to [response.data.data]). *)
Definition fetchWords (response : Runtime.Promise (list WordData))
    : Runtime.Prog State unit :=
  setIsLoading true ;;;
  Runtime.tryCatchFinally
    (allWords <- Runtime.await response ;;
     setWords (λ _, processedData allWords))
    (λ error,
       Runtime.emit (Runtime.ConsoleError
         "단어 목록을 불러오는데 실패했습니다." error))
    (setIsLoading false).

(** [fetchWords] in its two halves. Calling it (on mount, or by the refresh
    button) runs it up to the [await]: the loading flag is raised and the
    request is pending. *)
Definition fetchWordsStarted : Runtime.Prog State unit :=
  setIsLoading true.

(** When the request settles with [response], the rest of [fetchWords] runs:
    the [try] body after the [await], or the [catch] block, then [finally]. *)
Definition fetchWordsSettled (response : Runtime.Promise (list WordData))
    : Runtime.Prog State unit :=
  Runtime.tryCatchFinally
    (allWords <- Runtime.await response ;;
     setWords (λ _, processedData allWords))
    (λ error,
       Runtime.emit (Runtime.ConsoleError
         "단어 목록을 불러오는데 실패했습니다." error))
    (setIsLoading false).

(** [handleToggleAllMeanings] reads [showAllMeanings] as the render that
    installed the handler saw it, which is the current cell once the previous
    event has been rendered. *)
Definition handleToggleAllMeanings : Runtime.Prog State unit :=
  s <- Runtime.getState ;;
  let newShowAllState := negb (showAllMeanings s) in
  setShowAllMeanings newShowAllState ;;;
  setWords (λ prevWords,
    (λ word, {| base := base word;
                formattedMeanings := formattedMeanings word;
                isMeaningVisible := newShowAllState |}) <$> prevWords).

Definition handleItemToggle (uniqueId : string) : Runtime.Prog State unit :=
  setWords (λ prevWords,
    (λ word : ProcessedWord,
       if String.eqb (keyExtractor word) uniqueId
       then {| base := base word;
               formattedMeanings := formattedMeanings word;
               isMeaningVisible := negb (isMeaningVisible word) |}
       else word) <$> prevWords).

(** What can happen to the mounted screen: a fetch (the one started on
    mount or by the refresh button) settles, or a toggle is pressed. *)
Inductive Event :=
  | FetchSettled (response : Runtime.Promise (list WordData))
  | ToggleAllPressed
  | ItemTogglePressed (uniqueId : string).

Definition handle (ev : Event) : Runtime.Prog State unit :=
  match ev with
  | FetchSettled response => fetchWords response
  | ToggleAllPressed => handleToggleAllMeanings
  | ItemTogglePressed uniqueId => handleItemToggle uniqueId
  end.

Definition run (evs : list Event) (w : Runtime.World State)
    : Runtime.World State :=
  foldl (λ w ev, Runtime.exec (handle ev) w) w evs.


(** The keys [FlatList] derives from [data={words}] with [keyExtractor]. *)
Definition rowKeys (s : State) : list string :=
  (λ item : ProcessedWord, keyExtractor item) <$> words s.

Definition isToggle (ev : Event) : bool :=
  match ev with
  | FetchSettled _ => false
  | ToggleAllPressed | ItemTogglePressed _ => true
  end.

(** The payload of the most recent fetch that resolved, [[]] before any did. *)
Definition lastSuccessfulFetch (evs : list Event) : list WordData :=
  foldl (λ acc ev,
           match ev with
           | FetchSettled (Runtime.Resolved allWords) => allWords
           | _ => acc
           end) [] evs.

(** What [WordCard] renders for a row: the colour of its toggle, the
    identifier its [onPress] hands to [onItemToggle], the word, and the
    meanings text, present only while [item.isMeaningVisible]. *)
Record Card := {
  toggleColor : string;
  onPress : string;
  wordText : string;
  meaningText : option string;
}.

Definition WordCard (item : ProcessedWord) : Card :=
  let uniqueId := pretty (wordId item) +:+ "-" +:+ pretty (sentenceId item) in
  {| toggleColor := if isMeaningVisible item then "#DDF8F0" else "#D9D9D9";
     onPress := uniqueId;
     wordText := word item;
     meaningText :=
       if isMeaningVisible item then Some (formattedMeanings item) else None |}.

(** What [HomeScreen] returns: the activity indicator alone while loading,
    otherwise the "show meanings" checkbox with its colour and the list of
    keyed cards. *)
Inductive Screen :=
  | ActivityIndicator
  | WordList (checkboxColor : string) (cards : list (string * Card)).

Definition render (s : State) : Screen :=
  if isLoading s then ActivityIndicator
  else WordList (if showAllMeanings s then "#000" else "#FFF")
         ((λ item : ProcessedWord, (keyExtractor item, WordCard item))
            <$> words s).

(** The event raised by a press on the toggle of the [i]-th card shown. *)
Definition pressCard (i : nat) (s : State) : option Event :=
  match render s with
  | ActivityIndicator => None
  | WordList _ cards =>
      (λ kc : string * Card, ItemTogglePressed (onPress kc.2)) <$> cards !! i
  end.

End Home.


(** ** The profile screen, [MyPageScreen] *)

Module MyPage.

Record UserInfo := {
  id : Z;
  userId : string;
  email : string;
  nickname : string;
}.

(** The profile screen's own view of a word entry: only its identifier. *)
Record WordData := { wordId : Z }.

(** The four [useState] cells of [MyPageScreen]. *)
Record State := {
  userInfo : option UserInfo;
  wordCount : nat;
  isLoading : bool;
  isLogoutModalVisible : bool;
}.

Definition initialState : State :=
  {| userInfo := None; wordCount := 0%nat; isLoading := true;
     isLogoutModalVisible := false |}.

Definition setUserInfo (u : option UserInfo) : Runtime.Prog State unit :=
  Runtime.setState (λ s,
    {| userInfo := u; wordCount := wordCount s; isLoading := isLoading s;
       isLogoutModalVisible := isLogoutModalVisible s |}).

Definition setWordCount (n : nat) : Runtime.Prog State unit :=
  Runtime.setState (λ s,
    {| userInfo := userInfo s; wordCount := n; isLoading := isLoading s;
       isLogoutModalVisible := isLogoutModalVisible s |}).

Definition setIsLoading (b : bool) : Runtime.Prog State unit :=
  Runtime.setState (λ s,
    {| userInfo := userInfo s; wordCount := wordCount s; isLoading := b;
       isLogoutModalVisible := isLogoutModalVisible s |}).

Definition setIsLogoutModalVisible (b : bool) : Runtime.Prog State unit :=
  Runtime.setState (λ s,
    {| userInfo := userInfo s; wordCount := wordCount s;
       isLoading := isLoading s; isLogoutModalVisible := b |}).

(** [(word, index, self) => index === self.findIndex(w => w.wordId === word.wordId)] *)
Definition isFirstOccurrence (word : WordData) (index : Z)
    (self : list WordData) : bool :=
  index =? JsArray.findIndex (λ w, wordId w =? wordId word) self.

Definition uniqueWords (allWords : list WordData) : list WordData :=
  JsArray.filter isFirstOccurrence allWords.

Definition genericAlert : Runtime.Effect :=
  Runtime.AlertAlert "오류" "정보를 가져오는 중 문제가 발생했습니다.".

(** [fetchData], given the outcomes of [api.get('/api/member')] (projected
    to [.data]) and of [api.get('/api/word')] (projected to [.data.data]). *)
Definition fetchData (secondSettlesFirst : bool)
    (memberResponse : Runtime.Promise UserInfo)
    (wordResponse : Runtime.Promise (list WordData))
    : Runtime.Prog State unit :=
  setIsLoading true ;;;
  Runtime.tryCatchFinally
    (responses <- Runtime.await
       (Runtime.Promise_all2 secondSettlesFirst memberResponse wordResponse) ;;
     setUserInfo (Some responses.1) ;;;
     let allWords := responses.2 in
     setWordCount (length (uniqueWords allWords)))
    (λ error,
       Runtime.emit (Runtime.ConsoleError
         "데이터를 불러오는데 실패했습니다." error) ;;;
       Runtime.emit genericAlert)
    (setIsLoading false).

Definition handleLogoutPress : Runtime.Prog State unit :=
  setIsLogoutModalVisible true.

(** [confirmLogout], given how the two deletions settle. *)
Definition confirmLogout (secondSettlesFirst : bool)
    (accessOutcome refreshOutcome : Runtime.Promise ())
    : Runtime.Prog State unit :=
  setIsLogoutModalVisible false ;;;
  Runtime.tryCatch
    (p1 <- Runtime.deleteItemAsync "accessToken" accessOutcome ;;
     p2 <- Runtime.deleteItemAsync "refreshToken" refreshOutcome ;;
     _ <- Runtime.await (Runtime.Promise_all2 secondSettlesFirst p1 p2) ;;
     Runtime.emit (Runtime.RouterReplace "/main"))
    (λ error,
       Runtime.emit (Runtime.ConsoleError "로그아웃 처리 중 오류 발생" error) ;;;
       Runtime.emit (Runtime.AlertAlert "오류" "로그아웃 중 문제가 발생했습니다."))
.

Definition cancelLogout : Runtime.Prog State unit :=
  setIsLogoutModalVisible false.

End MyPage.

(** An entry of the [/api/word] payload as [MyPageScreen] reads it: the same
    JSON object, seen through the narrower [WordData] interface. *)
Definition asMyPageWord (w : Home.WordData) : MyPage.WordData :=
  {| MyPage.wordId := Home.wordId w |}.

(** ** Sample data *)

Module Samples.

Definition apple1 : Home.WordData :=
  {| Home.wordId := 1; Home.sentenceId := 10; Home.word := "apple";
     Home.meanings := [ {| Home.meaning := "사과" |} ] |}.

(** The same word captured from another sentence. *)
Definition apple2 : Home.WordData :=
  {| Home.wordId := 1; Home.sentenceId := 20; Home.word := "apple";
     Home.meanings := [ {| Home.meaning := "사과" |} ] |}.

Definition bank : Home.WordData :=
  {| Home.wordId := 2; Home.sentenceId := 30; Home.word := "bank";
     Home.meanings := [ {| Home.meaning := "은행" |}; {| Home.meaning := "둑" |} ] |}.

Definition payload : list Home.WordData := [apple1; bank; apple2; bank].

Definition homeWorld : Runtime.World Home.State :=
  Runtime.MkWorld Home.initialState ∅ [].

(** The word list after a fetch of [payload] and a press on "show all". *)
Definition shownWorld : Runtime.World Home.State :=
  Home.run [Home.FetchSettled (Runtime.Resolved payload);
            Home.ToggleAllPressed] homeWorld.

Definition member : MyPage.UserInfo :=
  {| MyPage.id := 7; MyPage.userId := "aica"; MyPage.email := "a@b.c";
     MyPage.nickname := "Aica" |}.

Definition tokens : gmap string string :=
  <["accessToken" := "at"]> (<["refreshToken" := "rt"]> (<["locale" := "ko"]> ∅)).

Definition myPageWorld : Runtime.World MyPage.State :=
  Runtime.MkWorld
    {| MyPage.userInfo := Some member; MyPage.wordCount := 2%nat;
       MyPage.isLoading := false; MyPage.isLogoutModalVisible := true |}
    tokens [].

End Samples.

(** Whether a string is free of the separator character of row keys. *)
Fixpoint dashFree (s : string) : bool :=
  match s with
  | EmptyString => true
  | String c s' => negb (Ascii.eqb c "-"%char) && dashFree s'
  end.

(** * Properties *)

(** ** Array methods *)

Section JsArrayFacts.
Context {A : Type}.
Implicit Types (p : A → bool) (l self : list A) (k : Z).

(** [findIndex] answers [-1] or the position of the first hit. *)
Lemma findIndex_from_cases p l k :
  (JsArray.findIndex_from p l k = -1 ∧ ∀ x, x ∈ l → p x = false)
  ∨ ∃ (i : nat) x,
      JsArray.findIndex_from p l k = k + Z.of_nat i
      ∧ l !! i = Some x ∧ p x = true
      ∧ ∀ (j : nat) y, (j < i)%nat → l !! j = Some y → p y = false.
Proof.
  revert k. induction l as [|a l IH]; intros k; simpl.
  - left. split; [done|]. intros x Hx. by apply elem_of_nil in Hx.
  - destruct (p a) eqn:Hpa.
    + right. exists 0%nat, a. repeat split; [lia|done|lia].
    + destruct (IH (k + 1)) as [[Hm Hall]|(i & x & Hi & Hx & Hpx & Hlt)].
      * left. split; [done|]. intros x [->|Hx]%elem_of_cons; auto.
      * right. exists (S i), x. repeat split; [lia|done|done|].
        intros [|j] y Hj Hy; simpl in Hy; [by simplify_eq|].
        apply (Hlt j); [lia|done].
Qed.

Lemma findIndex_from_first p l k (i : nat) x :
  l !! i = Some x → p x = true →
  (∀ (j : nat) y, (j < i)%nat → l !! j = Some y → p y = false) →
  JsArray.findIndex_from p l k = k + Z.of_nat i.
Proof.
  revert k i. induction l as [|a l IH]; intros k i Hi Hpx Hlt; [done|].
  destruct i as [|i]; simpl in *.
  - simplify_eq. rewrite Hpx. lia.
  - rewrite (Hlt 0%nat a) by (done || lia).
    rewrite (IH (k + 1) i); [lia|done|done|].
    intros j y Hj Hy. apply (Hlt (S j)); [lia|done].
Qed.

(** With a non-negative start, [-1] is never the position of a hit. *)
Lemma findIndex_eq_iff p self (i : nat) x :
  self !! i = Some x → p x = true →
  JsArray.findIndex p self = Z.of_nat i
  ↔ ∀ (j : nat) y, (j < i)%nat → self !! j = Some y → p y = false.
Proof.
  intros Hi Hpx. unfold JsArray.findIndex. split.
  - intros Heq.
    destruct (findIndex_from_cases p self 0)
      as [[Hm _]|(i' & x' & Hi' & Hx' & Hpx' & Hlt)]; [lia|].
    assert (i' = i) as -> by lia. done.
  - intros Hlt. by rewrite (findIndex_from_first p self 0 i x).
Qed.

(** The result of [filter] is a subsequence of the scanned suffix. *)
Lemma filter_from_sublist (q : A → Z → list A → bool) self k l :
  JsArray.filter_from q self k l `sublist_of` l.
Proof.
  revert k. induction l as [|a l IH]; intros k; simpl; [constructor|].
  destruct (q a k self); [by apply sublist_skip|by apply sublist_cons].
Qed.

(** [filter] as a selection over the positions of the suffix. *)
Lemma filter_from_positions (q : A → Z → list A → bool) self (n : nat) l :
  JsArray.filter_from q self (Z.of_nat n) l
  = omap (λ ix : nat * A,
            if q ix.2 (Z.of_nat ix.1) self then Some ix.2 else None)
         (imap (λ i x, ((n + i)%nat, x)) l).
Proof.
  revert n. induction l as [|a l IH]; intros n; [done|]. simpl.
  replace (n + 0)%nat with n by lia.
  replace (Z.of_nat n + 1) with (Z.of_nat (S n)) by lia.
  rewrite IH.
  assert (imap (λ i x, ((S n + i)%nat, x)) l
          = imap ((λ i x, ((n + i)%nat, x)) ∘ S) l) as ->.
  { apply imap_ext. intros i x _. simpl. f_equal. lia. }
  by destruct (q a (Z.of_nat n) self).
Qed.
End JsArrayFacts.

(** ** Deduplication on the word list screen *)

Section HomeDedup.
Import Home.
Implicit Types (l pre allWords : list WordData) (w : WordData).

Lemma isFirstOccurrence_iff allWords (i : nat) w :
  allWords !! i = Some w →
  isFirstOccurrence w (Z.of_nat i) allWords = true
  ↔ ∀ (j : nat) w', (j < i)%nat → allWords !! j = Some w' →
      wordId w' ≠ wordId w.
Proof.
  intros Hi. unfold isFirstOccurrence. rewrite Z.eqb_eq.
  split.
  - intros Heq j w' Hj Hw'. symmetry in Heq.
    eapply (findIndex_eq_iff (λ v, wordId v =? wordId w)) in Heq;
      [|done|by apply Z.eqb_refl|done..].
    by apply Z.eqb_neq.
  - intros Hne. symmetry.
    apply (findIndex_eq_iff _ _ i w); [done|apply Z.eqb_refl|].
    intros j y Hj Hy. apply Z.eqb_neq. by apply (Hne j).
Qed.

Lemma noEarlierSameId_iff l (i : nat) w :
  noEarlierSameId l i w = true
  ↔ ∀ (j : nat) w', (j < i)%nat → l !! j = Some w' → wordId w' ≠ wordId w.
Proof.
  unfold noEarlierSameId. rewrite forallb_forall. split.
  - intros Hall j w' Hj Hw'.
    apply Z.eqb_neq, negb_true_iff, Hall, list_elem_of_In.
    apply list_elem_of_lookup. exists j. by rewrite lookup_take_lt.
  - intros Hne w' [j Hj]%list_elem_of_In%list_elem_of_lookup.
    apply lookup_take_Some in Hj as [Hj Hlt].
    apply negb_true_iff, Z.eqb_neq. by apply (Hne j).
Qed.

Lemma isFirstOccurrence_noEarlierSameId allWords (i : nat) w :
  allWords !! i = Some w →
  isFirstOccurrence w (Z.of_nat i) allWords = noEarlierSameId allWords i w.
Proof.
  intros Hi. apply eq_true_iff_eq.
  by rewrite isFirstOccurrence_iff, noEarlierSameId_iff.
Qed.

Lemma uniqueWords_keepFirstOccurrences allWords :
  uniqueWords allWords = keepFirstOccurrences allWords.
Proof.
  unfold uniqueWords, JsArray.filter, keepFirstOccurrences.
  rewrite (filter_from_positions isFirstOccurrence allWords 0).
  apply list_omap_ext, Forall_Forall2_diag, Forall_lookup.
  intros i [n w] [w' [Hw' [= -> ->]]]%list_lookup_imap_Some. simpl.
  by rewrite isFirstOccurrence_noEarlierSameId.
Qed.

(** Scanning the suffix [l] behind the prefix [pre]: what is retained has
    pairwise distinct identifiers, none of which occurs in [pre]. *)
Lemma filter_from_fresh pre l :
  NoDup (wordId <$>
           JsArray.filter_from isFirstOccurrence (pre ++ l)
             (Z.of_nat (length pre)) l)
  ∧ ∀ w, w ∈ JsArray.filter_from isFirstOccurrence (pre ++ l)
               (Z.of_nat (length pre)) l →
         wordId w ∉ wordId <$> pre.
Proof.
  revert pre. induction l as [|a l IH]; intros pre; simpl.
  { split; [constructor|]. intros w Hw. by apply elem_of_nil in Hw. }
  destruct (IH (pre ++ [a])) as [Hnd Hfresh].
  rewrite <-(assoc_L (++)) in Hnd, Hfresh. simpl in Hnd, Hfresh.
  rewrite length_app in Hnd, Hfresh. simpl in Hnd, Hfresh.
  replace (Z.of_nat (length pre + 1)) with (Z.of_nat (length pre) + 1)
    in Hnd, Hfresh by lia.
  assert (Hpre : ∀ w, wordId w ∉ wordId <$> (pre ++ [a]) →
                      wordId w ≠ wordId a ∧ wordId w ∉ wordId <$> pre).
  { intros w Hw. rewrite fmap_app, not_elem_of_app in Hw.
    destruct Hw as [Hw1 Hw2]. split; [|done].
    intros Heq. apply Hw2. simpl. rewrite Heq. apply list_elem_of_singleton.
    done. }
  destruct (isFirstOccurrence a (Z.of_nat (length pre)) (pre ++ a :: l))
    eqn:Hcb.
  - split.
    + simpl. constructor; [|done].
      intros [w [Heq Hw]]%list_elem_of_fmap.
      apply Hfresh, Hpre in Hw as [Hne _]. congruence.
    + intros w [->|Hw]%elem_of_cons; [|by apply Hfresh, Hpre in Hw as [_ ?]].
      intros [w' [Heq Hw']]%list_elem_of_fmap.
      apply list_elem_of_lookup in Hw' as [j Hj].
      assert (Ha : (pre ++ a :: l) !! length pre = Some a).
      { by rewrite list_lookup_middle. }
      apply (isFirstOccurrence_iff _ _ _ Ha) with (j := j) (w' := w') in Hcb.
      * congruence.
      * by apply lookup_lt_Some in Hj.
      * by rewrite lookup_app_l by (by apply lookup_lt_Some in Hj).
  - split; [done|]. intros w Hw. by apply Hfresh, Hpre in Hw as [_ ?].
Qed.

Lemma uniqueWords_NoDup_wordId allWords :
  NoDup (wordId <$> uniqueWords allWords).
Proof. apply (filter_from_fresh [] allWords). Qed.

Lemma uniqueWords_sublist allWords :
  uniqueWords allWords `sublist_of` allWords.
Proof. apply filter_from_sublist. Qed.

(** Two retained entries with the same identifier are one entry. *)
Lemma uniqueWords_wordId_inj allWords a b :
  a ∈ uniqueWords allWords → b ∈ uniqueWords allWords →
  wordId a = wordId b → a = b.
Proof.
  intros [i Hi]%list_elem_of_lookup [j Hj]%list_elem_of_lookup Heq.
  assert (i = j) as ->; [|congruence].
  apply (NoDup_lookup _ i j (wordId a) (uniqueWords_NoDup_wordId allWords)).
  - by rewrite list_lookup_fmap, Hi.
  - by rewrite list_lookup_fmap, Hj, Heq.
Qed.
End HomeDedup.

(** ** Row keys *)

Section RowKeys.
Import Home.

Lemma string_app_cons (x : ascii) (a b : string) :
  String x a +:+ b = String x (a +:+ b).
Proof. done. Qed.

Lemma string_app_assoc (a b c : string) : (a +:+ b) +:+ c = a +:+ b +:+ c.
Proof.
  induction a as [|x a IH]; [done|]. rewrite !string_app_cons. by f_equal.
Qed.

Lemma string_app_empty_r (a : string) : a +:+ "" = a.
Proof.
  induction a as [|x a IH]; [done|]. rewrite string_app_cons. by f_equal.
Qed.

Lemma dashFree_app a b : dashFree (a +:+ b) = dashFree a && dashFree b.
Proof.
  induction a as [|c a IH]; [done|]. rewrite string_app_cons. simpl.
  by rewrite IH, andb_assoc.
Qed.

Lemma pretty_N_char_dashFree (x : N) :
  dashFree (String (pretty_N_char x) "") = true.
Proof. unfold pretty_N_char. by repeat case_match. Qed.

(** The digits are put in front of the accumulator, and none is a dash. *)
Lemma pretty_N_go_digits (x : N) (s : string) :
  ∃ d, pretty_N_go x s = d +:+ s ∧ dashFree d = true
       ∧ ((0 < x)%N → d ≠ "").
Proof.
  revert s. induction (N.lt_wf_0 x) as [x _ IH]; intros s.
  assert (x = 0 ∨ 0 < x)%N as [->|Hx] by lia.
  - exists "". rewrite pretty_N_go_0. split; [done|]. split; [done|lia].
  - rewrite pretty_N_go_step by done.
    destruct (IH (x `div` 10)%N (N.div_lt x 10 Hx eq_refl)
                (String (pretty_N_char (x `mod` 10)) s))
      as (d & -> & Hd & _).
    exists (d +:+ String (pretty_N_char (x `mod` 10)) "").
    split; [|split].
    + by rewrite string_app_assoc.
    + by rewrite dashFree_app, Hd, pretty_N_char_dashFree.
    + intros _. by destruct d.
Qed.

(** An integer renders as an optional sign and a non-empty run of digits. *)
Lemma pretty_Z_digits (z : Z) :
  ∃ d, dashFree d = true ∧ d ≠ ""
       ∧ pretty z = if z <? 0 then "-" +:+ d else d.
Proof.
  destruct z as [|q|q].
  - by exists "0".
  - destruct (pretty_N_go_digits (N.pos q) "") as (d & Hd & Hfree & Hne).
    exists d. split; [done|]. split; [by apply Hne|].
    unfold pretty, pretty_Z, pretty, pretty_positive, pretty, pretty_N.
    rewrite decide_False by done.
    by rewrite Hd, string_app_empty_r.
  - destruct (pretty_N_go_digits (N.pos q) "") as (d & Hd & Hfree & Hne).
    exists d. split; [done|]. split; [by apply Hne|].
    unfold pretty, pretty_Z, pretty, pretty_positive, pretty, pretty_N.
    rewrite decide_False by done.
    by rewrite Hd, string_app_empty_r.
Qed.

(** A dash-free prefix in front of a dash is determined by the whole. *)
Lemma dash_split_inj a b r1 r2 :
  dashFree a = true → dashFree b = true →
  a +:+ "-" +:+ r1 = b +:+ "-" +:+ r2 → a = b ∧ r1 = r2.
Proof.
  revert b. induction a as [|c a IH]; intros [|c' b] Ha Hb Heq;
    rewrite ?string_app_cons in Heq; simpl in Ha, Hb.
  - by simplify_eq.
  - injection Heq as <- _. by rewrite Ascii.eqb_refl in Hb.
  - injection Heq as -> _. by rewrite Ascii.eqb_refl in Ha.
  - injection Heq as -> Heq.
    apply andb_true_iff in Ha as [_ Ha]. apply andb_true_iff in Hb as [_ Hb].
    destruct (IH b Ha Hb Heq) as [-> ->]. done.
Qed.

(** The key [wordId-sentenceId] determines both identifiers. *)
Lemma composite_key_inj (w1 s1 w2 s2 : Z) :
  pretty w1 +:+ "-" +:+ pretty s1 = pretty w2 +:+ "-" +:+ pretty s2 →
  w1 = w2 ∧ s1 = s2.
Proof.
  intros Heq.
  destruct (pretty_Z_digits w1) as (d1 & Hf1 & Hn1 & Hp1).
  destruct (pretty_Z_digits w2) as (d2 & Hf2 & Hn2 & Hp2).
  assert (pretty w1 = pretty w2 ∧ pretty s1 = pretty s2) as [Hw Hs].
  { rewrite Hp1, Hp2 in Heq |- *.
    destruct (w1 <? 0), (w2 <? 0); rewrite ?string_app_cons in Heq.
    - assert (d1 +:+ "-" +:+ pretty s1 = d2 +:+ "-" +:+ pretty s2) as Heq'
        by (by injection Heq).
      destruct (dash_split_inj d1 d2 (pretty s1) (pretty s2) Hf1 Hf2 Heq')
        as [Hd Hs].
      by rewrite Hd, Hs.
    - destruct d2 as [|c d2]; [done|].
      rewrite string_app_cons in Heq. simpl in Hf2.
      injection Heq as <- _. by rewrite Ascii.eqb_refl in Hf2.
    - destruct d1 as [|c d1]; [done|].
      rewrite string_app_cons in Heq. simpl in Hf1.
      injection Heq as -> _. by rewrite Ascii.eqb_refl in Hf1.
    - by apply dash_split_inj. }
  split; by apply (inj pretty).
Qed.

Lemma keyExtractor_inj (a b : WordData) :
  keyExtractor a = keyExtractor b →
  wordId a = wordId b ∧ sentenceId a = sentenceId b.
Proof. apply composite_key_inj. Qed.

Lemma keyExtractor_processWord (w : WordData) :
  keyExtractor (processWord w) = keyExtractor w.
Proof. done. Qed.
End RowKeys.

(** ** What the handlers of the word list screen leave behind *)

Section HomeHandlers.
Import Home.
Implicit Types (wd : Runtime.World State) (allWords : list WordData).

Lemma fetchWords_resolved allWords wd :
  Runtime.exec (fetchWords (Runtime.Resolved allWords)) wd
  = Runtime.MkWorld
      {| words := processedData allWords; isLoading := false;
         showAllMeanings := showAllMeanings (Runtime.view wd) |}
      (Runtime.secureStore wd) (Runtime.effects wd).
Proof. done. Qed.

Lemma fetchWords_rejected reason wd :
  Runtime.exec (fetchWords (Runtime.Rejected reason)) wd
  = Runtime.MkWorld
      {| words := words (Runtime.view wd); isLoading := false;
         showAllMeanings := showAllMeanings (Runtime.view wd) |}
      (Runtime.secureStore wd)
      (Runtime.effects wd ++
         [Runtime.ConsoleError "단어 목록을 불러오는데 실패했습니다." reason]).
Proof. done. Qed.

Lemma handleToggleAllMeanings_exec wd :
  Runtime.exec handleToggleAllMeanings wd
  = Runtime.MkWorld
      {| words :=
           (λ word, {| base := base word;
                       formattedMeanings := formattedMeanings word;
                       isMeaningVisible :=
                         negb (showAllMeanings (Runtime.view wd)) |})
             <$> words (Runtime.view wd);
         isLoading := isLoading (Runtime.view wd);
         showAllMeanings := negb (showAllMeanings (Runtime.view wd)) |}
      (Runtime.secureStore wd) (Runtime.effects wd).
Proof. done. Qed.

Lemma handleItemToggle_exec uniqueId wd :
  Runtime.exec (handleItemToggle uniqueId) wd
  = Runtime.MkWorld
      {| words :=
           (λ word : ProcessedWord,
              if String.eqb (keyExtractor word) uniqueId
              then {| base := base word;
                      formattedMeanings := formattedMeanings word;
                      isMeaningVisible := negb (isMeaningVisible word) |}
              else word) <$> words (Runtime.view wd);
         isLoading := isLoading (Runtime.view wd);
         showAllMeanings := showAllMeanings (Runtime.view wd) |}
      (Runtime.secureStore wd) (Runtime.effects wd).
Proof. done. Qed.

Lemma base_processedData allWords :
  base <$> processedData allWords = uniqueWords allWords.
Proof.
  unfold processedData. rewrite <-list_fmap_compose.
  rewrite <-(list_fmap_id (uniqueWords allWords)) at 2.
  by apply list_fmap_ext.
Qed.

(** No handler changes the [WordData] part of a row unless a fetch
    resolves. *)
Lemma handle_base ev wd :
  base <$> words (Runtime.view (Runtime.exec (handle ev) wd))
  = match ev with
    | FetchSettled (Runtime.Resolved allWords) => uniqueWords allWords
    | _ => base <$> words (Runtime.view wd)
    end.
Proof.
  destruct ev as [[allWords|reason]| |uniqueId]; unfold handle.
  - rewrite fetchWords_resolved. apply base_processedData.
  - by rewrite fetchWords_rejected.
  - rewrite handleToggleAllMeanings_exec. simpl.
    rewrite <-list_fmap_compose. by apply list_fmap_ext.
  - rewrite handleItemToggle_exec. simpl.
    rewrite <-list_fmap_compose. apply list_fmap_ext.
    intros i pw _. simpl. by destruct (String.eqb _ _).
Qed.

Lemma run_base evs wd (acc : list WordData) :
  base <$> words (Runtime.view wd) = uniqueWords acc →
  base <$> words (Runtime.view (run evs wd))
  = uniqueWords
      (foldl (λ acc ev,
                match ev with
                | FetchSettled (Runtime.Resolved allWords) => allWords
                | _ => acc
                end) acc evs).
Proof.
  revert wd acc. induction evs as [|ev evs IH]; intros wd acc Hinv; [done|].
  simpl. apply IH. rewrite handle_base.
  by destruct ev as [[allWords|reason]| |uniqueId].
Qed.

Lemma rowKeys_base (s : State) : rowKeys s = keyExtractor <$> (base <$> words s).
Proof. unfold rowKeys. by rewrite <-list_fmap_compose. Qed.
End HomeHandlers.

(** ** Deduplication: the first occurrence of each identifier *)

Example uniqueWords_payload :
  Home.uniqueWords Samples.payload = [Samples.apple1; Samples.bank].
Proof. reflexivity. Qed.

Example formatMeanings_bank :
  Home.formatMeanings (Home.meanings Samples.bank) = "1. 은행 2. 둑".
Proof. reflexivity. Qed.

Example keyExtractor_apple2 : Home.keyExtractor Samples.apple2 = "1-20".
Proof. reflexivity. Qed.

(** C1. For every fetched list, the deduplication of the word list screen
    is the selection, in the original order, of the entries that no earlier
    entry of the list shares its [wordId] with: [uniqueWords] coincides with
    [keepFirstOccurrences], it is a subsequence of the fetched list, the rows
    stored by a successful fetch are exactly that selection, and
    [noEarlierSameId] at position [i] holds precisely when every entry at an
    earlier position has another [wordId]. *)
Theorem dedup_retains_first_occurrences (allWords : list Home.WordData) :
  Home.uniqueWords allWords = Home.keepFirstOccurrences allWords
  ∧ Home.uniqueWords allWords `sublist_of` allWords
  ∧ (∀ wd : Runtime.World Home.State,
       Home.base <$> Home.words (Runtime.view
         (Runtime.exec (Home.fetchWords (Runtime.Resolved allWords)) wd))
       = Home.keepFirstOccurrences allWords)
  ∧ ∀ (i : nat) (w : Home.WordData),
      Home.noEarlierSameId allWords i w = true
      ↔ ∀ (j : nat) (w' : Home.WordData),
          (j < i)%nat → allWords !! j = Some w' →
          Home.wordId w' ≠ Home.wordId w.
Proof.
  split; [apply uniqueWords_keepFirstOccurrences|].
  split; [apply uniqueWords_sublist|].
  split.
  - intros wd. rewrite fetchWords_resolved. simpl.
    rewrite base_processedData. apply uniqueWords_keepFirstOccurrences.
  - intros i w. apply noEarlierSameId_iff.
Qed.

(** C2, as the claim states it, fails: the two captures of "apple" differ in
    [sentenceId], both are in the fetched list, and the second one does not
    survive the deduplication. *)
Lemma sentence_variant_is_dropped :
  Home.sentenceId Samples.apple1 ≠ Home.sentenceId Samples.apple2
  ∧ Samples.apple1 ∈ Samples.payload
  ∧ Samples.apple2 ∈ Samples.payload
  ∧ Samples.apple2 ∉ Home.uniqueWords Samples.payload.
Proof.
  split; [done|]. split; [by left|].
  split; [by do 2 right; left|].
  rewrite uniqueWords_payload.
  intros Hin. apply elem_of_cons in Hin as [Heq|Hin]; [done|].
  apply list_elem_of_singleton in Hin. done.
Qed.

(** C2 (amended). The deduplication is keyed by [wordId] alone: an entry
    that shares its [wordId] with an earlier entry of the fetched list is
    rejected by the filter whatever its [sentenceId], the surviving entries
    have pairwise distinct [wordId]s, and hence two surviving entries that
    differ in [sentenceId] also differ in [wordId]. *)
Theorem dedup_is_keyed_by_wordId_alone (allWords : list Home.WordData) :
  (∀ (i j : nat) (a b : Home.WordData),
     (i < j)%nat → allWords !! i = Some a → allWords !! j = Some b →
     Home.wordId a = Home.wordId b →
     Home.isFirstOccurrence b (Z.of_nat j) allWords = false)
  ∧ NoDup (Home.wordId <$> Home.uniqueWords allWords)
  ∧ ∀ a b : Home.WordData,
      a ∈ Home.uniqueWords allWords → b ∈ Home.uniqueWords allWords →
      Home.sentenceId a ≠ Home.sentenceId b →
      Home.wordId a ≠ Home.wordId b.
Proof.
  split; [|split].
  - intros i j a b Hij Ha Hb Heq.
    apply not_true_is_false. intros Hkept.
    apply (isFirstOccurrence_iff allWords j b Hb) with (j := i) (w' := a)
      in Hkept; done.
  - apply uniqueWords_NoDup_wordId.
  - intros a b Ha Hb Hs Hw. apply Hs.
    by rewrite (uniqueWords_wordId_inj allWords a b Ha Hb Hw).
Qed.

Lemma dedup_is_keyed_by_wordId_alone_witness :
  Home.isFirstOccurrence Samples.apple2 (Z.of_nat 2) Samples.payload = false
  ∧ Home.wordId Samples.apple1 ≠ Home.wordId Samples.bank.
Proof.
  split.
  - apply (proj1 (dedup_is_keyed_by_wordId_alone Samples.payload)
             0%nat 2%nat Samples.apple1 Samples.apple2);
      [lia|reflexivity|reflexivity|reflexivity].
  - apply (proj2 (proj2 (dedup_is_keyed_by_wordId_alone Samples.payload))
             Samples.apple1 Samples.bank).
    + rewrite uniqueWords_payload. left.
    + rewrite uniqueWords_payload. right. left.
    + simpl. lia.
Defined.

(** ** Toggles *)

Example shownWorld_rows :
  Home.isMeaningVisible <$> Home.words (Runtime.view Samples.shownWorld)
  = [true; true]
  ∧ Home.showAllMeanings (Runtime.view Samples.shownWorld) = true.
Proof. split; reflexivity. Qed.

Example item_toggle_hides_bank :
  Home.isMeaningVisible <$> Home.words (Runtime.view
    (Runtime.exec (Home.handleItemToggle "2-30") Samples.shownWorld))
  = [true; false].
Proof. reflexivity. Qed.

(** C3. For every state of the word list and every [uniqueId], the per-item
    toggle keeps the number and order of rows; a row whose key
    [wordId-sentenceId] equals [uniqueId] has its [isMeaningVisible] negated
    and its other fields kept; every other row is left as it is; the loading
    flag, the global flag, the secure store and the effect log are untouched.
    A row's key equals the key built from [wid] and [sid] exactly when the
    row has these two identifiers. *)
Theorem item_toggle_flips_exactly_the_keyed_rows
    (wd : Runtime.World Home.State) (uniqueId : string) :
  let wd' := Runtime.exec (Home.handleItemToggle uniqueId) wd in
  length (Home.words (Runtime.view wd')) = length (Home.words (Runtime.view wd))
  ∧ (∀ (i : nat) (row : Home.ProcessedWord),
       Home.words (Runtime.view wd) !! i = Some row →
       Home.keyExtractor (Home.base row) = uniqueId →
       ∃ row', Home.words (Runtime.view wd') !! i = Some row'
               ∧ Home.isMeaningVisible row' = negb (Home.isMeaningVisible row)
               ∧ Home.base row' = Home.base row
               ∧ Home.formattedMeanings row' = Home.formattedMeanings row)
  ∧ (∀ (i : nat) (row : Home.ProcessedWord),
       Home.words (Runtime.view wd) !! i = Some row →
       Home.keyExtractor (Home.base row) ≠ uniqueId →
       Home.words (Runtime.view wd') !! i = Some row)
  ∧ Home.isLoading (Runtime.view wd') = Home.isLoading (Runtime.view wd)
  ∧ Home.showAllMeanings (Runtime.view wd')
    = Home.showAllMeanings (Runtime.view wd)
  ∧ Runtime.secureStore wd' = Runtime.secureStore wd
  ∧ Runtime.effects wd' = Runtime.effects wd
  ∧ ∀ (wid sid : Z) (row : Home.ProcessedWord),
      Home.keyExtractor (Home.base row) = pretty wid +:+ "-" +:+ pretty sid
      ↔ Home.wordId (Home.base row) = wid ∧ Home.sentenceId (Home.base row) = sid.
Proof.
  intros wd'. subst wd'. rewrite handleItemToggle_exec. simpl.
  split; [by rewrite length_fmap|].
  split; [|split].
  - intros i row Hi Hkey. rewrite list_lookup_fmap, Hi. simpl.
    apply String.eqb_eq in Hkey. rewrite Hkey. eauto.
  - intros i row Hi Hkey. rewrite list_lookup_fmap, Hi. simpl.
    apply String.eqb_neq in Hkey. by rewrite Hkey.
  - repeat (split; [done|]).
    intros wid sid row. split.
    + apply composite_key_inj.
    + intros [<- <-]. done.
Qed.

Lemma item_toggle_flips_exactly_the_keyed_rows_witness :
  (∃ row', Home.words (Runtime.view
             (Runtime.exec (Home.handleItemToggle "2-30") Samples.shownWorld))
             !! 1%nat = Some row'
           ∧ Home.isMeaningVisible row' = false)
  ∧ Home.words (Runtime.view
      (Runtime.exec (Home.handleItemToggle "2-30") Samples.shownWorld))
      !! 0%nat
    = Home.words (Runtime.view Samples.shownWorld) !! 0%nat.
Proof.
  pose proof (item_toggle_flips_exactly_the_keyed_rows
                Samples.shownWorld "2-30") as (_ & Hflip & Hframe & _).
  split.
  - destruct (Hflip 1%nat
                {| Home.base := Samples.bank;
                   Home.formattedMeanings := "1. 은행 2. 둑";
                   Home.isMeaningVisible := true |})
      as (row' & Hrow & Hvis & _); [reflexivity|reflexivity|].
    exists row'. split; [exact Hrow|exact Hvis].
  - apply (Hframe 0%nat
             {| Home.base := Samples.apple1;
                Home.formattedMeanings := "1. 사과";
                Home.isMeaningVisible := true |});
      [reflexivity|vm_compute; discriminate].
Defined.

(** C4. For every state of the word list, "toggle all" negates the global
    [showAllMeanings] flag and gives every row that new value as its
    [isMeaningVisible], keeping the number and order of rows and every other
    field of every row; the loading flag, the secure store and the effect log
    are untouched. *)
Theorem toggle_all_sets_every_row (wd : Runtime.World Home.State) :
  let wd' := Runtime.exec Home.handleToggleAllMeanings wd in
  Home.showAllMeanings (Runtime.view wd')
  = negb (Home.showAllMeanings (Runtime.view wd))
  ∧ length (Home.words (Runtime.view wd')) = length (Home.words (Runtime.view wd))
  ∧ (∀ (i : nat) (row : Home.ProcessedWord),
       Home.words (Runtime.view wd) !! i = Some row →
       ∃ row', Home.words (Runtime.view wd') !! i = Some row'
               ∧ Home.isMeaningVisible row'
                 = Home.showAllMeanings (Runtime.view wd')
               ∧ Home.base row' = Home.base row
               ∧ Home.formattedMeanings row' = Home.formattedMeanings row)
  ∧ Home.isLoading (Runtime.view wd') = Home.isLoading (Runtime.view wd)
  ∧ Runtime.secureStore wd' = Runtime.secureStore wd
  ∧ Runtime.effects wd' = Runtime.effects wd.
Proof.
  intros wd'. subst wd'. rewrite handleToggleAllMeanings_exec. simpl.
  split; [done|]. split; [by rewrite length_fmap|].
  split; [|done].
  intros i row Hi. rewrite list_lookup_fmap, Hi. simpl. eauto.
Qed.

Lemma toggle_all_sets_every_row_witness :
  ∃ row', Home.words (Runtime.view
            (Runtime.exec Home.handleToggleAllMeanings Samples.shownWorld))
            !! 0%nat = Some row'
          ∧ Home.isMeaningVisible row' = false.
Proof.
  pose proof (toggle_all_sets_every_row Samples.shownWorld)
    as (_ & _ & Hrows & _).
  destruct (Hrows 0%nat
              {| Home.base := Samples.apple1;
                 Home.formattedMeanings := "1. 사과";
                 Home.isMeaningVisible := true |})
    as (row' & Hrow & Hvis & _); [reflexivity|].
  exists row'. split; [exact Hrow|exact Hvis].
Defined.

(** ** Fetches on the word list screen *)

Example failed_refresh_keeps_rows :
  Home.words (Runtime.view
    (Runtime.exec (Home.fetchWords (Runtime.Rejected "Network Error"))
       Samples.shownWorld))
  = Home.words (Runtime.view Samples.shownWorld).
Proof. reflexivity. Qed.

(** C5. If the [/api/word] fetch of the word list screen fails, the word
    list is not modified: the rows and the global flag are what they were,
    the loading flag ends [false], the secure store is untouched and the only
    effect is the console message. Consequently, after any sequence of settled
    fetches and toggles from the initial state, the entries shown are those of
    the last fetch that succeeded (deduplicated), and none before any
    succeeded. *)
Theorem failed_fetch_keeps_word_list
    (wd : Runtime.World Home.State) (reason : string) :
  let wd' := Runtime.exec (Home.fetchWords (Runtime.Rejected reason)) wd in
  Home.words (Runtime.view wd') = Home.words (Runtime.view wd)
  ∧ Home.showAllMeanings (Runtime.view wd')
    = Home.showAllMeanings (Runtime.view wd)
  ∧ Home.isLoading (Runtime.view wd') = false
  ∧ Runtime.secureStore wd' = Runtime.secureStore wd
  ∧ Runtime.effects wd'
    = Runtime.effects wd ++
        [Runtime.ConsoleError "단어 목록을 불러오는데 실패했습니다." reason]
  ∧ ∀ (evs : list Home.Event) (store : gmap string string)
      (log : list Runtime.Effect),
      Home.base <$> Home.words (Runtime.view
        (Home.run evs (Runtime.MkWorld Home.initialState store log)))
      = Home.uniqueWords (Home.lastSuccessfulFetch evs).
Proof.
  intros wd'. subst wd'. rewrite fetchWords_rejected. simpl.
  repeat (split; [done|]).
  intros evs store log. unfold Home.lastSuccessfulFetch.
  by apply run_base.
Qed.

(** C10. Every successful fetch of the word list screen stores rows whose
    [isMeaningVisible] is [false] and leaves the global [showAllMeanings]
    flag as it was; so a refresh made while the flag is [true] ends with the
    flag [true] and no meaning visible. *)
Theorem successful_fetch_hides_every_meaning
    (wd : Runtime.World Home.State) (allWords : list Home.WordData) :
  let wd' := Runtime.exec (Home.fetchWords (Runtime.Resolved allWords)) wd in
  Forall (λ row, Home.isMeaningVisible row = false)
    (Home.words (Runtime.view wd'))
  ∧ Home.showAllMeanings (Runtime.view wd')
    = Home.showAllMeanings (Runtime.view wd)
  ∧ (Home.showAllMeanings (Runtime.view wd) = true →
     Home.showAllMeanings (Runtime.view wd') = true
     ∧ ∀ row, row ∈ Home.words (Runtime.view wd') →
              Home.isMeaningVisible row = false).
Proof.
  intros wd'. subst wd'. rewrite fetchWords_resolved. simpl.
  assert (Hall : Forall (λ row, Home.isMeaningVisible row = false)
                   (Home.processedData allWords)).
  { unfold Home.processedData. by apply Forall_fmap, Forall_true. }
  split; [done|]. split; [done|].
  intros Hflag. split; [done|]. by apply Forall_forall.
Qed.

Lemma successful_fetch_hides_every_meaning_witness :
  Home.showAllMeanings (Runtime.view
    (Runtime.exec (Home.fetchWords (Runtime.Resolved Samples.payload))
       Samples.shownWorld)) = true
  ∧ ∀ row, row ∈ Home.words (Runtime.view
             (Runtime.exec (Home.fetchWords (Runtime.Resolved Samples.payload))
                Samples.shownWorld)) →
           Home.isMeaningVisible row = false.
Proof.
  apply (proj2 (proj2 (successful_fetch_hides_every_meaning
                         Samples.shownWorld Samples.payload))).
  reflexivity.
Defined.

(** ** Row keys are pairwise distinct *)

Lemma uniqueWords_keys_NoDup (allWords : list Home.WordData) :
  NoDup (Home.keyExtractor <$> Home.uniqueWords allWords).
Proof.
  apply NoDup_fmap_2_strong.
  - intros a b Ha Hb [Hw _]%keyExtractor_inj.
    by apply (uniqueWords_wordId_inj allWords).
  - apply (NoDup_fmap_1 Home.wordId), uniqueWords_NoDup_wordId.
Qed.

Lemma toggle_rowKeys (ev : Home.Event) (wd : Runtime.World Home.State) :
  Home.isToggle ev = true →
  Home.rowKeys (Runtime.view (Runtime.exec (Home.handle ev) wd))
  = Home.rowKeys (Runtime.view wd).
Proof.
  intros Hev. rewrite !rowKeys_base, handle_base.
  by destruct ev as [[allWords|reason]| |uniqueId].
Qed.

Lemma run_toggles_rowKeys (evs : list Home.Event)
    (wd : Runtime.World Home.State) :
  Forall (λ ev, Home.isToggle ev = true) evs →
  Home.rowKeys (Runtime.view (Home.run evs wd)) = Home.rowKeys (Runtime.view wd).
Proof.
  intros Hevs. revert wd.
  induction Hevs as [|ev evs Hev _ IH]; intros wd; [done|].
  simpl. rewrite IH. by apply toggle_rowKeys.
Qed.

(** C9. After the deduplication of any fetched list the keys
    [wordId-sentenceId] of the stored rows are pairwise distinct; "toggle
    all" and the per-item toggle leave the list of keys of any state as it
    is (no row added, removed or re-keyed), so after a successful fetch
    followed by any sequence of toggles the keys are still pairwise
    distinct. *)
Theorem row_keys_stay_distinct
    (allWords : list Home.WordData) (wd : Runtime.World Home.State)
    (toggles : list Home.Event) :
  Forall (λ ev, Home.isToggle ev = true) toggles →
  let fetched :=
    Runtime.exec (Home.fetchWords (Runtime.Resolved allWords)) wd in
  NoDup (Home.rowKeys (Runtime.view fetched))
  ∧ Home.rowKeys (Runtime.view
      (Runtime.exec Home.handleToggleAllMeanings wd))
    = Home.rowKeys (Runtime.view wd)
  ∧ (∀ uniqueId,
       Home.rowKeys (Runtime.view
         (Runtime.exec (Home.handleItemToggle uniqueId) wd))
       = Home.rowKeys (Runtime.view wd))
  ∧ Home.rowKeys (Runtime.view (Home.run toggles fetched))
    = Home.rowKeys (Runtime.view fetched)
  ∧ NoDup (Home.rowKeys (Runtime.view (Home.run toggles fetched))).
Proof.
  intros Htoggles fetched.
  assert (Hfetched : NoDup (Home.rowKeys (Runtime.view fetched))).
  { subst fetched. rewrite rowKeys_base, fetchWords_resolved. simpl.
    rewrite base_processedData. apply uniqueWords_keys_NoDup. }
  split; [done|].
  split; [by apply (toggle_rowKeys Home.ToggleAllPressed)|].
  split; [intros uniqueId;
          by apply (toggle_rowKeys (Home.ItemTogglePressed uniqueId))|].
  rewrite run_toggles_rowKeys by done. done.
Qed.

Lemma row_keys_stay_distinct_witness :
  NoDup (Home.rowKeys (Runtime.view
    (Home.run [Home.ToggleAllPressed; Home.ItemTogglePressed "1-10"]
       (Runtime.exec (Home.fetchWords (Runtime.Resolved Samples.payload))
          Samples.homeWorld)))).
Proof.
  apply (row_keys_stay_distinct Samples.payload Samples.homeWorld
           [Home.ToggleAllPressed; Home.ItemTogglePressed "1-10"]).
  repeat constructor.
Defined.

(** ** The profile screen *)

Section JsArrayFmap.
Context {A B : Type} (f : A → B).

Lemma findIndex_from_fmap (p : B → bool) (l : list A) (k : Z) :
  JsArray.findIndex_from p (f <$> l) k = JsArray.findIndex_from (p ∘ f) l k.
Proof.
  revert k. induction l as [|a l IH]; intros k; [done|].
  simpl. by rewrite IH.
Qed.

(** A filter whose callback only looks through [f] commutes with [f]. *)
Lemma filter_from_fmap (qA : A → Z → list A → bool)
    (qB : B → Z → list B → bool) (self l : list A) (k : Z) :
  (∀ x i, qB (f x) i (f <$> self) = qA x i self) →
  JsArray.filter_from qB (f <$> self) k (f <$> l)
  = f <$> JsArray.filter_from qA self k l.
Proof.
  intros Hq. revert k. induction l as [|a l IH]; intros k; [done|].
  simpl. rewrite Hq, IH. by destruct (qA a k self).
Qed.
End JsArrayFmap.

Section MyPageHandlers.
Import MyPage.
Implicit Types (wd : Runtime.World State).

Lemma uniqueWords_asMyPageWord (allWords : list Home.WordData) :
  uniqueWords (asMyPageWord <$> allWords)
  = asMyPageWord <$> Home.uniqueWords allWords.
Proof.
  unfold uniqueWords, Home.uniqueWords, JsArray.filter.
  apply filter_from_fmap. intros x i.
  unfold isFirstOccurrence, Home.isFirstOccurrence, JsArray.findIndex.
  by rewrite findIndex_from_fmap.
Qed.

Lemma fetchData_resolved b member allWords wd :
  Runtime.exec
    (fetchData b (Runtime.Resolved member) (Runtime.Resolved allWords)) wd
  = Runtime.MkWorld
      {| userInfo := Some member;
         wordCount := length (uniqueWords allWords);
         isLoading := false;
         isLogoutModalVisible := isLogoutModalVisible (Runtime.view wd) |}
      (Runtime.secureStore wd) (Runtime.effects wd).
Proof. done. Qed.

Lemma fetchData_rejected b memberResponse wordResponse reason wd :
  Runtime.Promise_all2 b memberResponse wordResponse
  = Runtime.Rejected reason →
  Runtime.exec (fetchData b memberResponse wordResponse) wd
  = Runtime.MkWorld
      {| userInfo := userInfo (Runtime.view wd);
         wordCount := wordCount (Runtime.view wd);
         isLoading := false;
         isLogoutModalVisible := isLogoutModalVisible (Runtime.view wd) |}
      (Runtime.secureStore wd)
      (Runtime.effects wd ++
         [Runtime.ConsoleError "데이터를 불러오는데 실패했습니다." reason;
          genericAlert]).
Proof.
  intros Hall. unfold Runtime.exec, fetchData, Runtime.bind,
    Runtime.tryCatchFinally, Runtime.tryCatch. simpl.
  rewrite Hall. simpl. by rewrite <-(assoc_L (++)).
Qed.

Lemma Promise_all2_rejects {A B} b (p1 : Runtime.Promise A)
    (p2 : Runtime.Promise B) :
  (∃ reason, p1 = Runtime.Rejected reason)
  ∨ (∃ reason, p2 = Runtime.Rejected reason) →
  ∃ reason, Runtime.Promise_all2 b p1 p2 = Runtime.Rejected reason.
Proof.
  intros [[r ->]|[r ->]]; [destruct p2|destruct p1]; simpl; eauto.
Qed.
End MyPageHandlers.

Example profile_fetch_counts_words :
  MyPage.wordCount (Runtime.view
    (Runtime.exec
       (MyPage.fetchData false (Runtime.Resolved Samples.member)
          (Runtime.Resolved (asMyPageWord <$> Samples.payload)))
       Samples.myPageWorld)) = 2%nat.
Proof. reflexivity. Qed.

(** C6. On the profile screen, if either of the two parallel fetches fails,
    neither [userInfo] nor [wordCount] is updated (nor the logout modal flag
    or the secure store), the loading flag ends [false], and what is emitted
    is the console message followed by a single generic alert. *)
Theorem failed_profile_fetch_updates_nothing
    (wd : Runtime.World MyPage.State) (secondSettlesFirst : bool)
    (memberResponse : Runtime.Promise MyPage.UserInfo)
    (wordResponse : Runtime.Promise (list MyPage.WordData)) :
  (∃ reason, memberResponse = Runtime.Rejected reason)
  ∨ (∃ reason, wordResponse = Runtime.Rejected reason) →
  let wd' :=
    Runtime.exec
      (MyPage.fetchData secondSettlesFirst memberResponse wordResponse) wd in
  MyPage.userInfo (Runtime.view wd') = MyPage.userInfo (Runtime.view wd)
  ∧ MyPage.wordCount (Runtime.view wd') = MyPage.wordCount (Runtime.view wd)
  ∧ MyPage.isLogoutModalVisible (Runtime.view wd')
    = MyPage.isLogoutModalVisible (Runtime.view wd)
  ∧ MyPage.isLoading (Runtime.view wd') = false
  ∧ Runtime.secureStore wd' = Runtime.secureStore wd
  ∧ ∃ reason,
      Runtime.effects wd'
      = Runtime.effects wd ++
          [Runtime.ConsoleError "데이터를 불러오는데 실패했습니다." reason;
           Runtime.AlertAlert "오류" "정보를 가져오는 중 문제가 발생했습니다."].
Proof.
  intros Hfail wd'. subst wd'.
  destruct (Promise_all2_rejects secondSettlesFirst _ _ Hfail)
    as [reason Hall].
  rewrite (fetchData_rejected _ _ _ reason wd Hall). simpl.
  repeat (split; [done|]). by exists reason.
Qed.

Lemma failed_profile_fetch_updates_nothing_witness :
  MyPage.userInfo (Runtime.view
    (Runtime.exec
       (MyPage.fetchData false (Runtime.Resolved Samples.member)
          (Runtime.Rejected "timeout"))
       Samples.myPageWorld)) = Some Samples.member.
Proof.
  apply (failed_profile_fetch_updates_nothing Samples.myPageWorld false
           (Runtime.Resolved Samples.member) (Runtime.Rejected "timeout")).
  right. exists "timeout". reflexivity.
Defined.

Section Logout.
Import MyPage.
Implicit Types (wd : Runtime.World State).

Lemma confirmLogout_store b accessOutcome refreshOutcome wd :
  Runtime.secureStore
    (Runtime.exec (confirmLogout b accessOutcome refreshOutcome) wd)
  = (match refreshOutcome with
     | Runtime.Resolved _ => delete "refreshToken"
     | Runtime.Rejected _ => λ store, store
     end)
      ((match accessOutcome with
        | Runtime.Resolved _ => delete "accessToken"
        | Runtime.Rejected _ => λ store, store
        end) (Runtime.secureStore wd)).
Proof. by destruct accessOutcome, refreshOutcome, b. Qed.

Lemma confirmLogout_resolved b wd :
  Runtime.exec
    (confirmLogout b (Runtime.Resolved ()) (Runtime.Resolved ())) wd
  = Runtime.MkWorld
      {| userInfo := userInfo (Runtime.view wd);
         wordCount := wordCount (Runtime.view wd);
         isLoading := isLoading (Runtime.view wd);
         isLogoutModalVisible := false |}
      (delete "refreshToken" (delete "accessToken" (Runtime.secureStore wd)))
      (Runtime.effects wd ++ [Runtime.RouterReplace "/main"]).
Proof. done. Qed.
End Logout.

Example logout_leaves_locale :
  Runtime.secureStore
    (Runtime.exec
       (MyPage.confirmLogout false (Runtime.Resolved ()) (Runtime.Resolved ()))
       Samples.myPageWorld)
  = {[ "locale" := "ko" ]}.
Proof. by vm_compute. Qed.

(** C7, as the claim states it, fails: a confirmed logout whose deletion of
    [refreshToken] rejects closes the modal and removes [accessToken], yet
    leaves the [refreshToken] entry in the secure store. *)
Lemma confirmed_logout_can_keep_refresh_token :
  let after :=
    Runtime.exec
      (MyPage.confirmLogout false (Runtime.Resolved ())
         (Runtime.Rejected "keychain locked"))
      Samples.myPageWorld in
  MyPage.isLogoutModalVisible (Runtime.view after) = false
  ∧ Runtime.secureStore after !! "accessToken" = None
  ∧ Runtime.secureStore after !! "refreshToken" = Some "rt".
Proof. by vm_compute. Qed.

(** C7 (amended). When logout is confirmed, deletions are requested for the
    two secure-store keys [accessToken] and [refreshToken] and for no other
    key: every other key keeps its entry however the deletions settle, a key
    whose deletion resolves has no entry afterwards, and when both resolve
    the store is the old one without these two keys and the screen navigates
    to [/main]. *)
Theorem logout_clears_exactly_the_two_tokens
    (wd : Runtime.World MyPage.State) (secondSettlesFirst : bool)
    (accessOutcome refreshOutcome : Runtime.Promise ()) :
  let wd' :=
    Runtime.exec
      (MyPage.confirmLogout secondSettlesFirst accessOutcome refreshOutcome)
      wd in
  (∀ key : string,
     key ≠ "accessToken" → key ≠ "refreshToken" →
     Runtime.secureStore wd' !! key = Runtime.secureStore wd !! key)
  ∧ (accessOutcome = Runtime.Resolved () →
     Runtime.secureStore wd' !! "accessToken" = None)
  ∧ (refreshOutcome = Runtime.Resolved () →
     Runtime.secureStore wd' !! "refreshToken" = None)
  ∧ (accessOutcome = Runtime.Resolved () →
     refreshOutcome = Runtime.Resolved () →
     Runtime.secureStore wd'
     = delete "refreshToken" (delete "accessToken" (Runtime.secureStore wd))
     ∧ Runtime.effects wd'
       = Runtime.effects wd ++ [Runtime.RouterReplace "/main"]).
Proof.
  intros wd'. split; [|split; [|split]].
  - intros key Ha Hr. subst wd'. rewrite confirmLogout_store.
    destruct accessOutcome, refreshOutcome; simpl;
      rewrite ?lookup_delete_ne by done; done.
  - intros ->. subst wd'. rewrite confirmLogout_store.
    destruct refreshOutcome; simpl.
    + rewrite lookup_delete_ne by done. apply lookup_delete_eq.
    + apply lookup_delete_eq.
  - intros ->. subst wd'. rewrite confirmLogout_store. apply lookup_delete_eq.
  - intros -> ->. subst wd'. by rewrite confirmLogout_resolved.
Qed.

Lemma logout_clears_exactly_the_two_tokens_witness :
  Runtime.secureStore
    (Runtime.exec
       (MyPage.confirmLogout false (Runtime.Resolved ()) (Runtime.Resolved ()))
       Samples.myPageWorld) !! "locale" = Some "ko"
  ∧ Runtime.secureStore
      (Runtime.exec
         (MyPage.confirmLogout false (Runtime.Resolved ()) (Runtime.Resolved ()))
         Samples.myPageWorld) !! "accessToken" = None
  ∧ Runtime.secureStore
      (Runtime.exec
         (MyPage.confirmLogout false (Runtime.Resolved ()) (Runtime.Resolved ()))
         Samples.myPageWorld) !! "refreshToken" = None.
Proof.
  pose proof (logout_clears_exactly_the_two_tokens Samples.myPageWorld false
                (Runtime.Resolved ()) (Runtime.Resolved ()))
    as (Hframe & Haccess & Hrefresh & _).
  split; [|split].
  - rewrite (Hframe "locale"); [reflexivity|discriminate|discriminate].
  - apply Haccess. reflexivity.
  - apply Hrefresh. reflexivity.
Defined.


(** * Further properties of the two screens *)

(** ** Laws of the deduplication *)

Section DedupLaws.
Import Home.
Implicit Types (l pre : list WordData) (a w : WordData).

(** The head of the list is always retained. *)
Lemma uniqueWords_head a l :
  uniqueWords (a :: l)
  = a :: JsArray.filter_from isFirstOccurrence ([a] ++ l)
           (Z.of_nat (length [a])) l.
Proof.
  unfold uniqueWords, JsArray.filter. cbn [JsArray.filter_from].
  assert (isFirstOccurrence a 0 (a :: l) = true) as ->; [|done].
  unfold isFirstOccurrence, JsArray.findIndex.
  cbn [JsArray.findIndex_from]. by rewrite Z.eqb_refl.
Qed.

(** The scan of a suffix behind a prefix keeps what the scan of the suffix
    alone keeps, minus the identifiers already met in the prefix. *)
Lemma filter_from_behind_prefix pre l :
  JsArray.filter_from isFirstOccurrence (pre ++ l) (Z.of_nat (length pre)) l
  = filter (λ w, wordId w ∉ wordId <$> pre) (uniqueWords l).
Proof.
  revert pre. induction l as [|a l IH]; intros pre; [done|].
  assert (Hhead : isFirstOccurrence a (Z.of_nat (length pre))
                    (pre ++ a :: l) = true
                  ↔ wordId a ∉ wordId <$> pre).
  { rewrite (isFirstOccurrence_iff (pre ++ a :: l) (length pre) a)
      by (by rewrite list_lookup_middle).
    split.
    - intros Hne [w' [Heq [j Hj]%list_elem_of_lookup]]%list_elem_of_fmap.
      apply (Hne j w'); [by apply lookup_lt_Some in Hj| |done].
      by rewrite lookup_app_l by (by apply lookup_lt_Some in Hj).
    - intros Hfresh j w' Hj Hw' Heq. apply Hfresh.
      rewrite lookup_app_l in Hw' by done.
      apply list_elem_of_fmap. exists w'. split; [done|].
      by apply list_elem_of_lookup_2 in Hw'. }
  assert (Hrest :
    JsArray.filter_from isFirstOccurrence (pre ++ a :: l)
      (Z.of_nat (length pre) + 1) l
    = filter (λ w, (wordId w ∉ wordId <$> pre) ∧ wordId w ≠ wordId a)
        (uniqueWords l)).
  { pose proof (IH (pre ++ [a])) as Hpre.
    rewrite <-(assoc_L (++)), length_app in Hpre. simpl in Hpre.
    replace (Z.of_nat (length pre + 1)) with (Z.of_nat (length pre) + 1)
      in Hpre by lia.
    rewrite Hpre. apply list_filter_iff. intros w.
    rewrite fmap_app, not_elem_of_app. simpl.
    by rewrite list_elem_of_singleton. }
  rewrite uniqueWords_head, (IH [a]).
  cbn [JsArray.filter_from]. rewrite Hrest.
  rewrite filter_cons, list_filter_filter.
  assert (Hpred : filter (λ w, (wordId w ∉ wordId <$> pre)
                               ∧ (wordId w ∉ wordId <$> [a])) (uniqueWords l)
                  = filter (λ w, (wordId w ∉ wordId <$> pre)
                                 ∧ wordId w ≠ wordId a) (uniqueWords l)).
  { apply list_filter_iff. intros w. simpl. by rewrite list_elem_of_singleton. }
  rewrite Hpred.
  destruct (isFirstOccurrence a (Z.of_nat (length pre)) (pre ++ a :: l))
    eqn:Hcb.
  - rewrite decide_True; [done|]. by apply Hhead.
  - rewrite decide_False; [done|].
    intros Hfresh. apply Hhead in Hfresh. congruence.
Qed.

Lemma uniqueWords_cons a l :
  uniqueWords (a :: l)
  = a :: filter (λ w, wordId w ≠ wordId a) (uniqueWords l).
Proof.
  rewrite uniqueWords_head, filter_from_behind_prefix. f_equal.
  apply list_filter_iff. intros w. simpl. by rewrite list_elem_of_singleton.
Qed.

Lemma uniqueWords_wordIds l (x : Z) :
  x ∈ wordId <$> uniqueWords l ↔ x ∈ wordId <$> l.
Proof.
  induction l as [|a l IH]; [done|].
  rewrite uniqueWords_cons, !fmap_cons, !elem_of_cons, <-IH.
  rewrite !list_elem_of_fmap.
  split.
  - intros [->|(w & -> & [_ Hw]%list_elem_of_filter)]; [by left|].
    right. by exists w.
  - intros [->|(w & -> & Hw)]; [by left|].
    destruct (decide (wordId w = wordId a)) as [Heq|Hne]; [by left|].
    right. exists w. split; [done|]. by apply list_elem_of_filter.
Qed.

Lemma filter_all {A} (P : A → Prop) `{!∀ x, Decision (P x)} (l : list A) :
  Forall P l → filter P l = l.
Proof.
  induction 1 as [|x l Hx _ IH]; [done|].
  by rewrite filter_cons_True, IH.
Qed.

Lemma uniqueWords_NoDup_fixed l : NoDup (wordId <$> l) → uniqueWords l = l.
Proof.
  induction l as [|a l IH]; [done|].
  rewrite fmap_cons, NoDup_cons. intros [Ha Hl].
  rewrite uniqueWords_cons, IH by done. f_equal.
  apply filter_all, Forall_forall. intros w Hw Heq. apply Ha.
  apply list_elem_of_fmap. by exists w.
Qed.

Lemma uniqueWords_app l1 l2 :
  uniqueWords (l1 ++ l2)
  = uniqueWords l1
    ++ filter (λ w, wordId w ∉ wordId <$> l1) (uniqueWords l2).
Proof.
  induction l1 as [|a l1 IH]; simpl.
  - symmetry. apply filter_all, Forall_forall. intros w _.
    apply not_elem_of_nil.
  - rewrite !uniqueWords_cons, IH, filter_app, list_filter_filter.
    simpl. f_equal. f_equal. apply list_filter_iff. intros w.
    rewrite not_elem_of_cons. tauto.
Qed.
End DedupLaws.

(** X1. Deduplicating a list followed by further entries keeps the
    deduplication of the first part as it is and appends, in order, those
    retained entries of the second part whose [wordId] does not occur in the
    first part; in particular what is retained from the front of a payload
    does not depend on what follows it. *)
Theorem dedup_of_appended_entries (l1 l2 : list Home.WordData) :
  Home.uniqueWords (l1 ++ l2)
  = Home.uniqueWords l1
    ++ filter (λ w, Home.wordId w ∉ Home.wordId <$> l1) (Home.uniqueWords l2)
  ∧ Home.uniqueWords l1 `prefix_of` Home.uniqueWords (l1 ++ l2).
Proof.
  split; [apply uniqueWords_app|].
  rewrite uniqueWords_app. by eexists.
Qed.

(** X2. The deduplication keeps every [wordId] of the payload and keeps it
    once: the retained entries carry the same set of identifiers as the
    payload, their number is the number of distinct identifiers, and it never
    exceeds the length of the payload. *)
Theorem dedup_counts_distinct_wordIds (allWords : list Home.WordData) :
  list_to_set (Home.wordId <$> Home.uniqueWords allWords)
  =@{gset Z} list_to_set (Home.wordId <$> allWords)
  ∧ length (Home.uniqueWords allWords)
    = size (list_to_set (Home.wordId <$> allWords) : gset Z)
  ∧ (length (Home.uniqueWords allWords) ≤ length allWords)%nat.
Proof.
  assert (Hset : list_to_set (Home.wordId <$> Home.uniqueWords allWords)
                 =@{gset Z} list_to_set (Home.wordId <$> allWords)).
  { apply set_eq. intros x. rewrite !elem_of_list_to_set.
    apply uniqueWords_wordIds. }
  split; [done|]. split.
  - rewrite <-Hset, size_list_to_set by apply uniqueWords_NoDup_wordId.
    by rewrite length_fmap.
  - apply sublist_length, uniqueWords_sublist.
Qed.

(** X3. A payload is left as it is by the deduplication exactly when its
    [wordId]s are pairwise distinct; hence deduplicating twice is the same as
    deduplicating once. *)
Theorem dedup_fixed_points (allWords : list Home.WordData) :
  (Home.uniqueWords allWords = allWords ↔ NoDup (Home.wordId <$> allWords))
  ∧ Home.uniqueWords (Home.uniqueWords allWords) = Home.uniqueWords allWords.
Proof.
  split.
  - split; [|apply uniqueWords_NoDup_fixed].
    intros <-. apply uniqueWords_NoDup_wordId.
  - apply uniqueWords_NoDup_fixed, uniqueWords_NoDup_wordId.
Qed.

(** ** The numbered meanings text *)

Section FormatMeanings.
Import Home.

Lemma map_from_app {A B} (f : A → Z → B) (k : Z) (l1 l2 : list A) :
  JsArray.map_from f k (l1 ++ l2)
  = JsArray.map_from f k l1
    ++ JsArray.map_from f (k + Z.of_nat (length l1)) l2.
Proof.
  revert k. induction l1 as [|a l1 IH]; intros k; simpl.
  - by rewrite Z.add_0_r.
  - rewrite IH. do 3 f_equal. lia.
Qed.

Lemma length_map_from {A B} (f : A → Z → B) (k : Z) (l : list A) :
  length (JsArray.map_from f k l) = length l.
Proof. revert k. induction l as [|a l IH]; intros k; simpl; [done|by rewrite IH]. Qed.

Lemma join_snoc (sep : string) (l : list string) (s : string) :
  l ≠ [] → JsArray.join sep (l ++ [s]) = JsArray.join sep l +:+ sep +:+ s.
Proof.
  induction l as [|a l IH]; [done|]. intros _.
  destruct l as [|b l]; [done|].
  change (JsArray.join sep ((a :: b :: l) ++ [s]))
    with (a +:+ sep +:+ JsArray.join sep ((b :: l) ++ [s])).
  rewrite IH by done.
  change (JsArray.join sep (a :: b :: l))
    with (a +:+ sep +:+ JsArray.join sep (b :: l)).
  by rewrite !string_app_assoc.
Qed.
End FormatMeanings.

(** X4. The meanings text numbers the meanings from 1 and separates them by
    one space: no meaning gives the empty text, and adding a meaning [m]
    after [n] meanings ([n] at least 1) appends a space, the number [n + 1],
    a dot, a space and [m]. *)
Theorem formatMeanings_numbers_from_one
    (ms : list Home.Meaning) (m : Home.Meaning) :
  Home.formatMeanings [] = ""
  ∧ Home.formatMeanings [m] = "1. " +:+ Home.meaning m
  ∧ (ms ≠ [] →
     Home.formatMeanings (ms ++ [m])
     = Home.formatMeanings ms +:+ " "
       +:+ pretty (Z.of_nat (length ms) + 1) +:+ ". " +:+ Home.meaning m).
Proof.
  split; [done|]. split; [done|].
  intros Hms. unfold Home.formatMeanings, JsArray.map_index.
  rewrite map_from_app. simpl. rewrite join_snoc; [done|].
  intros Hnil. apply (f_equal length) in Hnil.
  rewrite length_map_from in Hnil. by destruct ms.
Qed.

Lemma formatMeanings_numbers_from_one_witness :
  Home.formatMeanings (Home.meanings Samples.bank)
  = "1. 은행" +:+ " " +:+ "2" +:+ ". " +:+ "둑".
Proof.
  apply (proj2 (proj2 (formatMeanings_numbers_from_one
                         [ {| Home.meaning := "은행" |} ]
                         {| Home.meaning := "둑" |}))).
  discriminate.
Defined.

(** ** Rows across events *)

Section RowInvariants.
Import Home.
Implicit Types (wd : Runtime.World State) (row : ProcessedWord).

(** A row is well formed when its text is the numbered text of its own
    meanings. *)
Lemma handle_formatted ev wd :
  Forall (λ row, formattedMeanings row = formatMeanings (meanings row))
    (words (Runtime.view wd)) →
  Forall (λ row, formattedMeanings row = formatMeanings (meanings row))
    (words (Runtime.view (Runtime.exec (handle ev) wd))).
Proof.
  intros Hinv. destruct ev as [[allWords|reason]| |uniqueId]; unfold handle.
  - rewrite fetchWords_resolved. simpl. unfold processedData.
    by apply Forall_fmap, Forall_true.
  - by rewrite fetchWords_rejected.
  - rewrite handleToggleAllMeanings_exec. simpl.
    apply Forall_fmap. eapply Forall_impl; [exact Hinv|]. by intros row.
  - rewrite handleItemToggle_exec. simpl.
    apply Forall_fmap. eapply Forall_impl; [exact Hinv|].
    intros row Hrow. simpl. by destruct (String.eqb _ _).
Qed.

Lemma flip_twice row (uniqueId : string) :
  let flip := λ r : ProcessedWord,
    if String.eqb (keyExtractor r) uniqueId
    then {| base := base r; formattedMeanings := formattedMeanings r;
            isMeaningVisible := negb (isMeaningVisible r) |}
    else r in
  flip (flip row) = row.
Proof.
  simpl. destruct (String.eqb (keyExtractor row) uniqueId) eqn:Hkey.
  - simpl. unfold keyExtractor in *. simpl. rewrite Hkey.
    destruct row as [b f v]. simpl. by rewrite negb_involutive.
  - by rewrite Hkey.
Qed.

Lemma flip_commute row (id1 id2 : string) :
  let flip := λ (uniqueId : string) (r : ProcessedWord),
    if String.eqb (keyExtractor r) uniqueId
    then {| base := base r; formattedMeanings := formattedMeanings r;
            isMeaningVisible := negb (isMeaningVisible r) |}
    else r in
  flip id1 (flip id2 row) = flip id2 (flip id1 row).
Proof.
  simpl. unfold keyExtractor.
  destruct (String.eqb _ id2) eqn:H2, (String.eqb _ id1) eqn:H1; simpl;
    rewrite ?H1, ?H2; done.
Qed.
End RowInvariants.

(** X5. From the initial state, after any sequence of settled fetches and
    toggles, the text stored with every row is the numbered text of that
    row's own meanings: toggles and failed fetches never desynchronise
    [formattedMeanings] from [meanings]. *)
Theorem formattedMeanings_always_matches_meanings
    (evs : list Home.Event) (store : gmap string string)
    (log : list Runtime.Effect) :
  Forall (λ row, Home.formattedMeanings row
                 = Home.formatMeanings (Home.meanings (Home.base row)))
    (Home.words (Runtime.view
       (Home.run evs (Runtime.MkWorld Home.initialState store log)))).
Proof.
  assert (Hgen : ∀ wd,
    Forall (λ row, Home.formattedMeanings row
                   = Home.formatMeanings (Home.meanings (Home.base row)))
      (Home.words (Runtime.view wd)) →
    Forall (λ row, Home.formattedMeanings row
                   = Home.formatMeanings (Home.meanings (Home.base row)))
      (Home.words (Runtime.view (Home.run evs wd)))).
  { induction evs as [|ev evs IH]; intros wd Hinv; [done|].
    simpl. apply IH. by apply handle_formatted. }
  apply Hgen. constructor.
Qed.

(** X6. Pressing the toggle of the same item twice restores the whole state:
    the per-item toggle is an involution. *)
Theorem item_toggle_twice_is_identity
    (wd : Runtime.World Home.State) (uniqueId : string) :
  Runtime.exec (Home.handleItemToggle uniqueId)
    (Runtime.exec (Home.handleItemToggle uniqueId) wd) = wd.
Proof.
  rewrite !handleItemToggle_exec. destruct wd as [[ws ld sa] st ef]. simpl.
  do 2 f_equal. rewrite <-list_fmap_compose.
  rewrite <-(list_fmap_id ws) at 2. apply list_fmap_ext.
  intros i row _. apply (flip_twice row uniqueId).
Qed.

(** X7. Per-item toggles commute: pressing the toggles of two items in
    either order gives the same state. *)
Theorem item_toggles_commute
    (wd : Runtime.World Home.State) (id1 id2 : string) :
  Runtime.exec (Home.handleItemToggle id1)
    (Runtime.exec (Home.handleItemToggle id2) wd)
  = Runtime.exec (Home.handleItemToggle id2)
      (Runtime.exec (Home.handleItemToggle id1) wd).
Proof.
  rewrite !handleItemToggle_exec. simpl. do 2 f_equal.
  rewrite <-!list_fmap_compose. apply list_fmap_ext.
  intros i row _. apply (flip_commute row id1 id2).
Qed.

(** X8. "Toggle all" overrides the per-item choices: pressing it after a
    per-item toggle gives the same state as pressing it alone. Pressing it
    twice restores the global flag and leaves every row with the visibility
    the flag had, not with the visibility the row had. *)
Theorem toggle_all_overrides_item_toggles
    (wd : Runtime.World Home.State) (uniqueId : string) :
  Runtime.exec Home.handleToggleAllMeanings
    (Runtime.exec (Home.handleItemToggle uniqueId) wd)
  = Runtime.exec Home.handleToggleAllMeanings wd
  ∧ Home.showAllMeanings (Runtime.view
      (Runtime.exec Home.handleToggleAllMeanings
         (Runtime.exec Home.handleToggleAllMeanings wd)))
    = Home.showAllMeanings (Runtime.view wd)
  ∧ Home.words (Runtime.view
      (Runtime.exec Home.handleToggleAllMeanings
         (Runtime.exec Home.handleToggleAllMeanings wd)))
    = (λ row, {| Home.base := Home.base row;
                 Home.formattedMeanings := Home.formattedMeanings row;
                 Home.isMeaningVisible :=
                   Home.showAllMeanings (Runtime.view wd) |})
        <$> Home.words (Runtime.view wd).
Proof.
  rewrite !handleToggleAllMeanings_exec, handleItemToggle_exec. simpl.
  split; [|split].
  - do 2 f_equal. rewrite <-list_fmap_compose. apply list_fmap_ext.
    intros i row _. simpl. by destruct (String.eqb _ _).
  - apply negb_involutive.
  - rewrite <-list_fmap_compose. apply list_fmap_ext.
    intros i row _. simpl. by rewrite negb_involutive.
Qed.

Example toggle_all_twice_forgets_item_choice :
  Home.isMeaningVisible <$> Home.words (Runtime.view
    (Home.run [Home.ItemTogglePressed "2-30"; Home.ToggleAllPressed;
               Home.ToggleAllPressed] Samples.shownWorld))
  = [true; true].
Proof. reflexivity. Qed.

(** X9. On a screen whose row keys are pairwise distinct (as they are after
    every fetch), a press on the toggle of the [i]-th card can only happen
    when the list is shown, raises the per-item toggle with that row's key,
    and changes the [i]-th row alone: its [isMeaningVisible] is negated and
    every other row, and the order of rows, is kept. *)
Theorem pressing_a_card_flips_that_row_only
    (wd : Runtime.World Home.State) (i : nat) (ev : Home.Event) :
  NoDup (Home.rowKeys (Runtime.view wd)) →
  Home.pressCard i (Runtime.view wd) = Some ev →
  ∃ row,
    Home.words (Runtime.view wd) !! i = Some row
    ∧ Home.isLoading (Runtime.view wd) = false
    ∧ ev = Home.ItemTogglePressed (Home.keyExtractor (Home.base row))
    ∧ Home.words (Runtime.view (Runtime.exec (Home.handle ev) wd))
      = <[i := {| Home.base := Home.base row;
                  Home.formattedMeanings := Home.formattedMeanings row;
                  Home.isMeaningVisible := negb (Home.isMeaningVisible row) |}]>
          (Home.words (Runtime.view wd)).
Proof.
  intros Hkeys Hpress. unfold Home.pressCard, Home.render in Hpress.
  destruct (Home.isLoading (Runtime.view wd)) eqn:Hload; [done|].
  rewrite list_lookup_fmap in Hpress.
  destruct (Home.words (Runtime.view wd) !! i) as [row|] eqn:Hrow; [|done].
  simpl in Hpress. injection Hpress as <-.
  exists row. split; [done|]. split; [done|]. split; [done|].
  unfold Home.handle. rewrite handleItemToggle_exec. simpl.
  apply list_eq. intros j. rewrite list_lookup_fmap.
  destruct (decide (j = i)) as [->|Hne].
  - rewrite list_lookup_insert_eq by (by apply lookup_lt_Some in Hrow).
    rewrite Hrow. simpl.
    fold (Home.keyExtractor (Home.base row)).
    by rewrite String.eqb_refl.
  - rewrite list_lookup_insert_ne by done.
    destruct (Home.words (Runtime.view wd) !! j) as [other|] eqn:Hother;
      [|done].
    simpl.
    destruct (String.eqb _ _) eqn:Hsame; [|done].
    exfalso. apply Hne. apply String.eqb_eq in Hsame.
    apply (NoDup_lookup _ j i (Home.keyExtractor (Home.base row)) Hkeys).
    + unfold Home.rowKeys. rewrite list_lookup_fmap, Hother. simpl.
      f_equal. exact Hsame.
    + unfold Home.rowKeys. by rewrite list_lookup_fmap, Hrow.
Qed.

Lemma pressing_a_card_flips_that_row_only_witness :
  ∃ row,
    Home.words (Runtime.view Samples.shownWorld) !! 1%nat = Some row
    ∧ Home.isLoading (Runtime.view Samples.shownWorld) = false
    ∧ Home.ItemTogglePressed "2-30"
      = Home.ItemTogglePressed (Home.keyExtractor (Home.base row))
    ∧ Home.words (Runtime.view
        (Runtime.exec (Home.handle (Home.ItemTogglePressed "2-30"))
           Samples.shownWorld))
      = <[1%nat := {| Home.base := Home.base row;
                      Home.formattedMeanings := Home.formattedMeanings row;
                      Home.isMeaningVisible :=
                        negb (Home.isMeaningVisible row) |}]>
          (Home.words (Runtime.view Samples.shownWorld)).
Proof.
  apply (pressing_a_card_flips_that_row_only Samples.shownWorld 1%nat
           (Home.ItemTogglePressed "2-30")).
  - vm_compute. repeat constructor.
    + intros Hin. apply elem_of_cons in Hin as [Heq|Hin]; [discriminate|].
      by apply elem_of_nil in Hin.
    + intros Hin. by apply elem_of_nil in Hin.
  - reflexivity.
Defined.

(** ** Further properties of the profile screen *)

Section MyPageDedup.
Import MyPage.

(** Every list of profile-screen entries is the profile-screen reading of
    some payload. *)
Lemma asMyPageWord_surjective (allWords : list WordData) :
  ∃ payload : list Home.WordData,
    allWords = asMyPageWord <$> payload
    ∧ Home.wordId <$> payload = wordId <$> allWords.
Proof.
  exists ((λ w, {| Home.wordId := wordId w; Home.sentenceId := 0;
                   Home.word := ""; Home.meanings := [] |}) <$> allWords).
  rewrite <-!list_fmap_compose. split.
  - rewrite <-(list_fmap_id allWords) at 1. apply list_fmap_ext.
    by intros i [n] _.
  - by apply list_fmap_ext.
Qed.

Lemma length_uniqueWords_distinct (allWords : list WordData) :
  length (uniqueWords allWords)
  = size (list_to_set (wordId <$> allWords) : gset Z)
  ∧ (length (uniqueWords allWords) ≤ length allWords)%nat.
Proof.
  destruct (asMyPageWord_surjective allWords) as (payload & -> & Hids).
  rewrite uniqueWords_asMyPageWord, !length_fmap, <-Hids.
  assert (Hset : list_to_set (Home.wordId <$> Home.uniqueWords payload)
                 =@{gset Z} list_to_set (Home.wordId <$> payload)).
  { apply set_eq. intros x. rewrite !elem_of_list_to_set.
    apply uniqueWords_wordIds. }
  split.
  - rewrite <-Hset, size_list_to_set by apply uniqueWords_NoDup_wordId.
    by rewrite length_fmap.
  - apply sublist_length, uniqueWords_sublist.
Qed.
End MyPageDedup.

(** X10. When both profile fetches resolve, [userInfo] becomes the fetched
    member, [wordCount] becomes the number of distinct [wordId]s of the
    fetched entries (never more than their number), the loading flag ends
    [false], and nothing is logged, alerted, navigated or written to the
    secure store. *)
Theorem successful_profile_fetch_counts_distinct_words
    (wd : Runtime.World MyPage.State) (secondSettlesFirst : bool)
    (member : MyPage.UserInfo) (allWords : list MyPage.WordData) :
  let wd' :=
    Runtime.exec
      (MyPage.fetchData secondSettlesFirst (Runtime.Resolved member)
         (Runtime.Resolved allWords)) wd in
  MyPage.userInfo (Runtime.view wd') = Some member
  ∧ MyPage.wordCount (Runtime.view wd')
    = size (list_to_set (MyPage.wordId <$> allWords) : gset Z)
  ∧ (MyPage.wordCount (Runtime.view wd') ≤ length allWords)%nat
  ∧ MyPage.isLoading (Runtime.view wd') = false
  ∧ MyPage.isLogoutModalVisible (Runtime.view wd')
    = MyPage.isLogoutModalVisible (Runtime.view wd)
  ∧ Runtime.effects wd' = Runtime.effects wd
  ∧ Runtime.secureStore wd' = Runtime.secureStore wd.
Proof.
  intros wd'. subst wd'. rewrite fetchData_resolved. simpl.
  destruct (length_uniqueWords_distinct allWords) as [Hsize Hle].
  by repeat (split; [done|]).
Qed.

Lemma confirmLogout_rejected (wd : Runtime.World MyPage.State)
    (secondSettlesFirst : bool)
    (accessOutcome refreshOutcome : Runtime.Promise ()) (reason : string) :
  Runtime.Promise_all2 secondSettlesFirst accessOutcome refreshOutcome
  = Runtime.Rejected reason →
  Runtime.exec
    (MyPage.confirmLogout secondSettlesFirst accessOutcome refreshOutcome) wd
  = Runtime.MkWorld
      {| MyPage.userInfo := MyPage.userInfo (Runtime.view wd);
         MyPage.wordCount := MyPage.wordCount (Runtime.view wd);
         MyPage.isLoading := MyPage.isLoading (Runtime.view wd);
         MyPage.isLogoutModalVisible := false |}
      (Runtime.secureStore
         (Runtime.exec
            (MyPage.confirmLogout secondSettlesFirst accessOutcome
               refreshOutcome) wd))
      (Runtime.effects wd ++
         [Runtime.ConsoleError "로그아웃 처리 중 오류 발생" reason;
          Runtime.AlertAlert "오류" "로그아웃 중 문제가 발생했습니다."]).
Proof.
  intros Hall.
  destruct accessOutcome as [[]|ra], refreshOutcome as [[]|rr],
    secondSettlesFirst; simpl in Hall; simplify_eq;
    unfold Runtime.exec; simpl; by rewrite <-(assoc_L (++)).
Qed.

(** X11. A confirmed logout navigates to [/main] exactly when both deletions
    resolve; when either rejects it logs the reason and raises one alert
    instead, and stays on the profile screen. In every case the logout modal
    ends hidden and the profile data and the loading flag are untouched. *)
Theorem logout_navigates_iff_both_deletions_resolve
    (wd : Runtime.World MyPage.State) (secondSettlesFirst : bool)
    (accessOutcome refreshOutcome : Runtime.Promise ()) :
  let wd' :=
    Runtime.exec
      (MyPage.confirmLogout secondSettlesFirst accessOutcome refreshOutcome)
      wd in
  (Runtime.effects wd' = Runtime.effects wd ++ [Runtime.RouterReplace "/main"]
   ↔ accessOutcome = Runtime.Resolved ()
     ∧ refreshOutcome = Runtime.Resolved ())
  ∧ ((∃ reason, accessOutcome = Runtime.Rejected reason)
     ∨ (∃ reason, refreshOutcome = Runtime.Rejected reason) →
     ∃ reason,
       Runtime.effects wd'
       = Runtime.effects wd ++
           [Runtime.ConsoleError "로그아웃 처리 중 오류 발생" reason;
            Runtime.AlertAlert "오류" "로그아웃 중 문제가 발생했습니다."])
  ∧ MyPage.isLogoutModalVisible (Runtime.view wd') = false
  ∧ MyPage.userInfo (Runtime.view wd') = MyPage.userInfo (Runtime.view wd)
  ∧ MyPage.wordCount (Runtime.view wd') = MyPage.wordCount (Runtime.view wd)
  ∧ MyPage.isLoading (Runtime.view wd') = MyPage.isLoading (Runtime.view wd).
Proof.
  intros wd'. subst wd'.
  pose proof (confirmLogout_rejected wd secondSettlesFirst accessOutcome
                refreshOutcome) as Hfail.
  destruct accessOutcome as [[]|ra] eqn:Ha, refreshOutcome as [[]|rr] eqn:Hr.
  - rewrite confirmLogout_resolved. simpl.
    split; [done|]. split; [|done].
    intros [[reason [=]]|[reason [=]]].
  - destruct (Promise_all2_rejects secondSettlesFirst
                (Runtime.Resolved ()) (Runtime.Rejected (A:=()) rr))
      as [reason Hall]; [right; by eexists|].
    rewrite (Hfail reason Hall). simpl.
    split; [|split; [by eexists|done]].
    split; [|by intros [_ [=]]].
    intros Heq%(inj (app _)). discriminate.
  - destruct (Promise_all2_rejects secondSettlesFirst
                (Runtime.Rejected (A:=()) ra) (Runtime.Resolved ()))
      as [reason Hall]; [left; by eexists|].
    rewrite (Hfail reason Hall). simpl.
    split; [|split; [by eexists|done]].
    split; [|by intros [[=] _]].
    intros Heq%(inj (app _)). discriminate.
  - destruct (Promise_all2_rejects secondSettlesFirst
                (Runtime.Rejected (A:=()) ra) (Runtime.Rejected (A:=()) rr))
      as [reason Hall]; [left; by eexists|].
    rewrite (Hfail reason Hall). simpl.
    split; [|split; [by eexists|done]].
    split; [|by intros [[=] _]].
    intros Heq%(inj (app _)). discriminate.
Qed.

Lemma logout_navigates_iff_both_deletions_resolve_witness :
  ∃ reason,
    Runtime.effects
      (Runtime.exec
         (MyPage.confirmLogout false (Runtime.Resolved ())
            (Runtime.Rejected "keychain locked"))
         Samples.myPageWorld)
    = Runtime.effects Samples.myPageWorld ++
        [Runtime.ConsoleError "로그아웃 처리 중 오류 발생" reason;
         Runtime.AlertAlert "오류" "로그아웃 중 문제가 발생했습니다."].
Proof.
  apply (proj1 (proj2 (logout_navigates_iff_both_deletions_resolve
                         Samples.myPageWorld false (Runtime.Resolved ())
                         (Runtime.Rejected "keychain locked")))).
  right. exists "keychain locked". reflexivity.
Defined.

Example failed_logout_drops_access_token :
  Runtime.secureStore
    (Runtime.exec
       (MyPage.confirmLogout false (Runtime.Resolved ())
          (Runtime.Rejected "keychain locked"))
       Samples.myPageWorld)
  = <["refreshToken" := "rt"]> {[ "locale" := "ko" ]}.
Proof. by vm_compute. Qed.

(** X12. A logout that fails can still have removed a credential: the two
    deletions are started together, so a key whose deletion rejects keeps its
    entry, while the other key is gone once its own deletion resolves,
    although the screen then reports the error and does not navigate. *)
Theorem failed_logout_can_delete_one_token
    (wd : Runtime.World MyPage.State) (secondSettlesFirst : bool)
    (accessOutcome refreshOutcome : Runtime.Promise ()) (reason : string) :
  let wd' :=
    Runtime.exec
      (MyPage.confirmLogout secondSettlesFirst accessOutcome refreshOutcome)
      wd in
  (accessOutcome = Runtime.Rejected reason →
   Runtime.secureStore wd' !! "accessToken"
   = Runtime.secureStore wd !! "accessToken")
  ∧ (refreshOutcome = Runtime.Rejected reason →
     Runtime.secureStore wd' !! "refreshToken"
     = Runtime.secureStore wd !! "refreshToken")
  ∧ (accessOutcome = Runtime.Resolved () →
     refreshOutcome = Runtime.Rejected reason →
     Runtime.secureStore wd' = delete "accessToken" (Runtime.secureStore wd)
     ∧ Runtime.effects wd'
       = Runtime.effects wd ++
           [Runtime.ConsoleError "로그아웃 처리 중 오류 발생" reason;
            Runtime.AlertAlert "오류" "로그아웃 중 문제가 발생했습니다."])
  ∧ (accessOutcome = Runtime.Rejected reason →
     refreshOutcome = Runtime.Resolved () →
     Runtime.secureStore wd' = delete "refreshToken" (Runtime.secureStore wd)
     ∧ Runtime.effects wd'
       = Runtime.effects wd ++
           [Runtime.ConsoleError "로그아웃 처리 중 오류 발생" reason;
            Runtime.AlertAlert "오류" "로그아웃 중 문제가 발생했습니다."]).
Proof.
  intros wd'. split; [|split; [|split]].
  - intros ->. subst wd'. rewrite confirmLogout_store.
    destruct refreshOutcome; simpl; [|done].
    by rewrite lookup_delete_ne.
  - intros ->. subst wd'. rewrite confirmLogout_store.
    destruct accessOutcome; simpl; [|done].
    by rewrite lookup_delete_ne.
  - intros -> ->. subst wd'. split; [by rewrite confirmLogout_store|].
    by rewrite (confirmLogout_rejected wd secondSettlesFirst _ _ reason).
  - intros -> ->. subst wd'. split; [by rewrite confirmLogout_store|].
    by rewrite (confirmLogout_rejected wd secondSettlesFirst _ _ reason).
Qed.

Lemma failed_logout_can_delete_one_token_witness :
  Runtime.secureStore
    (Runtime.exec
       (MyPage.confirmLogout false (Runtime.Resolved ())
          (Runtime.Rejected "keychain locked"))
       Samples.myPageWorld)
  = delete "accessToken" (Runtime.secureStore Samples.myPageWorld)
  ∧ Runtime.secureStore
      (Runtime.exec
         (MyPage.confirmLogout false (Runtime.Resolved ())
            (Runtime.Rejected "keychain locked"))
         Samples.myPageWorld) !! "refreshToken"
    = Runtime.secureStore Samples.myPageWorld !! "refreshToken".
Proof.
  pose proof (failed_logout_can_delete_one_token Samples.myPageWorld false
                (Runtime.Resolved ()) (Runtime.Rejected "keychain locked")
                "keychain locked") as (_ & Hrefresh & Haccess & _).
  split.
  - apply Haccess; reflexivity.
  - apply Hrefresh. reflexivity.
Defined.

(** ** Nothing but a confirmed logout writes to the secure store *)

Lemma home_handle_secureStore (ev : Home.Event)
    (wd : Runtime.World Home.State) :
  Runtime.secureStore (Runtime.exec (Home.handle ev) wd)
  = Runtime.secureStore wd.
Proof. by destruct ev as [[allWords|reason]| |uniqueId]. Qed.

(** X13. The stored credentials are touched by a confirmed logout only: no
    sequence of fetches and toggles on the word list screen, no profile
    fetch (whatever its outcome), no press on "logout" and no cancellation
    of the modal changes the secure store; opening and then cancelling the
    modal restores a state whose modal was hidden. *)
Theorem only_confirmed_logout_touches_secure_store
    (home : Runtime.World Home.State) (evs : list Home.Event)
    (profile : Runtime.World MyPage.State) (secondSettlesFirst : bool)
    (memberResponse : Runtime.Promise MyPage.UserInfo)
    (wordResponse : Runtime.Promise (list MyPage.WordData)) :
  Runtime.secureStore (Home.run evs home) = Runtime.secureStore home
  ∧ Runtime.secureStore
      (Runtime.exec
         (MyPage.fetchData secondSettlesFirst memberResponse wordResponse)
         profile)
    = Runtime.secureStore profile
  ∧ Runtime.secureStore (Runtime.exec MyPage.handleLogoutPress profile)
    = Runtime.secureStore profile
  ∧ Runtime.secureStore (Runtime.exec MyPage.cancelLogout profile)
    = Runtime.secureStore profile
  ∧ (MyPage.isLogoutModalVisible (Runtime.view profile) = false →
     Runtime.exec MyPage.cancelLogout
       (Runtime.exec MyPage.handleLogoutPress profile) = profile).
Proof.
  split; [|split; [|split; [done|split; [done|]]]].
  - revert home. induction evs as [|ev evs IH]; intros home; [done|].
    simpl. by rewrite IH, home_handle_secureStore.
  - destruct memberResponse as [member|rm], wordResponse as [allWords|rw],
      secondSettlesFirst; done.
  - destruct profile as [[u n ld modal] st ef]. simpl. by intros ->.
Qed.

Lemma only_confirmed_logout_touches_secure_store_witness :
  Runtime.exec MyPage.cancelLogout
    (Runtime.exec MyPage.handleLogoutPress
       (Runtime.MkWorld MyPage.initialState Samples.tokens []))
  = Runtime.MkWorld MyPage.initialState Samples.tokens [].
Proof.
  apply (proj2 (proj2 (proj2 (proj2
    (only_confirmed_logout_touches_secure_store Samples.homeWorld []
       (Runtime.MkWorld MyPage.initialState Samples.tokens []) false
       (Runtime.Rejected "x") (Runtime.Rejected "y")))))).
  reflexivity.
Defined.

(** ** What the word list screen shows *)

(** X14. The three places that build a row's identifier agree: on every
    state that shows the list, the keys handed to the list are the row keys
    in order, every card hands its own key to the toggle handler, and there
    is one card per row. While the screen is loading, and beyond the last
    row, there is no toggle to press. *)
Theorem cards_carry_their_row_keys (s : Home.State) :
  (Home.isLoading s = true →
   Home.render s = Home.ActivityIndicator
   ∧ ∀ i, Home.pressCard i s = None)
  ∧ (Home.isLoading s = false →
     ∃ checkbox cards,
       Home.render s = Home.WordList checkbox cards
       ∧ fst <$> cards = Home.rowKeys s
       ∧ Forall (λ kc, kc.1 = Home.onPress kc.2) cards
       ∧ length cards = length (Home.words s)
       ∧ ∀ i, Home.pressCard i s = None ↔ (length (Home.words s) ≤ i)%nat).
Proof.
  unfold Home.pressCard, Home.render. split; intros ->; [done|].
  eexists _, _. split; [done|]. split; [|split; [|split]].
  - unfold Home.rowKeys. rewrite <-list_fmap_compose.
    by apply list_fmap_ext.
  - apply Forall_fmap, Forall_true. by intros row.
  - by rewrite length_fmap.
  - intros i. rewrite fmap_None, list_lookup_fmap, fmap_None.
    apply lookup_ge_None.
Qed.

Lemma cards_carry_their_row_keys_witness :
  ∃ checkbox cards,
    Home.render (Runtime.view Samples.shownWorld)
    = Home.WordList checkbox cards
    ∧ fst <$> cards = Home.rowKeys (Runtime.view Samples.shownWorld)
    ∧ Forall (λ kc, kc.1 = Home.onPress kc.2) cards
    ∧ length cards = length (Home.words (Runtime.view Samples.shownWorld))
    ∧ ∀ i, Home.pressCard i (Runtime.view Samples.shownWorld) = None
           ↔ (length (Home.words (Runtime.view Samples.shownWorld)) ≤ i)%nat.
Proof.
  apply (proj2 (cards_carry_their_row_keys (Runtime.view Samples.shownWorld))).
  reflexivity.
Defined.

(** X15. Calling [fetchWords] (on mount or by the refresh button) puts the
    screen on the activity indicator while the request is pending: no card
    and no toggle is shown, and the rows and the global flag are kept. When
    the request settles, resolved or rejected, the rest of [fetchWords] runs
    and the list is shown again; the two halves together are [fetchWords]. *)
Theorem refresh_shows_spinner_until_fetch_settles
    (wd : Runtime.World Home.State)
    (response : Runtime.Promise (list Home.WordData)) :
  let pending := Runtime.exec Home.fetchWordsStarted wd in
  let settled := Runtime.exec (Home.fetchWordsSettled response) pending in
  Home.render (Runtime.view pending) = Home.ActivityIndicator
  ∧ (∀ i, Home.pressCard i (Runtime.view pending) = None)
  ∧ Home.words (Runtime.view pending) = Home.words (Runtime.view wd)
  ∧ Home.showAllMeanings (Runtime.view pending)
    = Home.showAllMeanings (Runtime.view wd)
  ∧ settled = Runtime.exec (Home.fetchWords response) wd
  ∧ Home.isLoading (Runtime.view settled) = false
  ∧ Home.render (Runtime.view settled) ≠ Home.ActivityIndicator.
Proof.
  intros pending settled. subst pending settled.
  split; [done|]. split; [done|]. split; [done|]. split; [done|].
  assert (Hwhole :
    Runtime.exec (Home.fetchWordsSettled response)
      (Runtime.exec Home.fetchWordsStarted wd)
    = Runtime.exec (Home.fetchWords response) wd) by done.
  rewrite Hwhole. split; [done|].
  destruct response as [allWords|reason].
  - rewrite fetchWords_resolved. by split.
  - rewrite fetchWords_rejected. by split.
Qed.

Example refresh_hides_the_list_while_pending :
  Home.render (Runtime.view
    (Runtime.exec Home.fetchWordsStarted Samples.shownWorld))
  = Home.ActivityIndicator
  ∧ Home.render (Runtime.view
      (Runtime.exec (Home.fetchWordsSettled (Runtime.Rejected "Network Error"))
         (Runtime.exec Home.fetchWordsStarted Samples.shownWorld)))
    = Home.render (Runtime.view Samples.shownWorld).
Proof. split; reflexivity. Qed.
